(** * ElGamal signatures over a prime-order subgroup: a model of
      [Elgamal_Signature.py] and the properties of its operations.

    Python integers are unbounded, so they are modelled by [Z]; [%] and [//]
    are floor division, which is what [Z.modulo] and [Z.div] compute for a
    divisor different from zero.  The module-level generator [_rand] is a
    tape of raw draws read at a moving position; the functions of the module
    are computations over that position which may return, raise, or exhaust
    the iteration budget of a [while True] loop. *)

From Stdlib Require Import ZArith Lia List Bool.
From Stdlib Require Import Strings.Byte.
From Stdlib Require Import Znumtheory Zdivisibility Zcong Zpow_facts.
From Stdlib Require Zmod.ZmodInv.
Import ListNotations.

Local Open Scope Z_scope.

(** ** Outcomes and the computation monad *)

Inductive exn : Type :=
| ValueError
| ZeroDivisionError.

(** [OutOfFuel] stands for a loop that is still running when its iteration
    budget ends. *)
Inductive outcome (A : Type) : Type :=
| Ok (a : A)
| Raise (e : exn)
| OutOfFuel.

Arguments Ok {A} a.
Arguments Raise {A} e.
Arguments OutOfFuel {A}.

(** A computation reads the position of the random tape and leaves the
    position it reached. *)
Definition M (A : Type) : Type := nat -> outcome A * nat.

Definition ret {A} (a : A) : M A := fun n => (Ok a, n).

Definition bind {A B} (m : M A) (f : A -> M B) : M B :=
  fun n =>
    match m n with
    | (Ok a, n') => f a n'
    | (Raise e, n') => (Raise e, n')
    | (OutOfFuel, n') => (OutOfFuel, n')
    end.

Definition lift {A} (o : outcome A) : M A := fun n => (o, n).

Declare Scope py_scope.
Delimit Scope py_scope with py.
Notation "x <- m ;; k" := (bind m (fun x => k))
  (at level 61, m at next level, right associativity) : py_scope.
Notation "' pat <- m ;; k" := (bind m (fun x => match x with pat => k end))
  (at level 61, pat pattern, m at next level, right associativity) : py_scope.
Local Open Scope py_scope.

(** [while True: body], where the body either returns a value ([Some]) or
    falls through to the next iteration ([None], also for [continue]).  The
    loop gives up with [OutOfFuel] after [fuel] iterations. *)
Fixpoint loop {A} (fuel : nat) (body : M (option A)) : M A :=
  match fuel with
  | O => fun n => (OutOfFuel, n)
  | S fuel' =>
      o <- body ;;
      match o with
      | Some a => ret a
      | None => loop fuel' body
      end
  end.

(** ** Integer primitives of the language *)

(** [a % m] *)
Definition py_mod (a m : Z) : outcome Z :=
  if m =? 0 then Raise ZeroDivisionError else Ok (a mod m).

(** [a // m] *)
Definition py_floordiv (a m : Z) : outcome Z :=
  if m =? 0 then Raise ZeroDivisionError else Ok (a / m).

(** [1 << n] and, in general, [a << n] *)
Definition py_shiftl (a n : Z) : outcome Z :=
  if n <? 0 then Raise ValueError else Ok (Z.shiftl a n).

(** [pow(b, e, m)]: a zero modulus is refused; a negative exponent asks for
    the inverse of [b] modulo [m], which exists only when they are coprime. *)
Definition py_pow (b e m : Z) : outcome Z :=
  if m =? 0 then Raise ValueError
  else if 0 <=? e then Ok (b ^ e mod m)
  else if Z.gcd b m =? 1 then Ok (Z.invmod b m ^ (- e) mod m)
  else Raise ValueError.

(** [int.bit_length()] *)
Definition bit_length (z : Z) : Z :=
  if z =? 0 then 0 else Z.log2 (Z.abs z) + 1.

(** [int.from_bytes(h, byteorder='big')] *)
Definition int_from_bytes_big (bs : list byte) : Z :=
  fold_left (fun acc b => acc * 256 + Z.of_N (Byte.to_N b)) bs 0.

(** The tuple of small primes tried first by [is_prime]. *)
Definition small_primes : list Z := [2; 3; 5; 7; 11; 13; 17; 19; 23].

(** [for p in (2, 3, ..., 23): if n == p: return True;
     if n % p == 0: return False] -- [Some b] when the loop returns [b],
    [None] when it runs to its end.  The divisors are the literals of the
    tuple, so [%] cannot fail here. *)
Fixpoint small_primes_check (n : Z) (ps : list Z) : option bool :=
  match ps with
  | [] => None
  | p :: ps' =>
      if n =? p then Some true
      else if n mod p =? 0 then Some false
      else small_primes_check n ps'
  end.

(** [while d % 2 == 0: d //= 2; r += 1] on a positive [d]: the loop strips
    the trailing zero bits of [d] and counts them. *)
Fixpoint strip_twos (d : positive) (r : Z) : Z * positive :=
  match d with
  | xO d' => strip_twos d' (r + 1)
  | _ => (r, d)
  end.

(** The same loop on any integer: on [0] the test [d % 2 == 0] holds for
    ever; a negative [d] loses its trailing zero bits like a positive one
    ([//] is exact on even numbers). *)
Definition factor_twos (r d : Z) : outcome (Z * Z) :=
  match d with
  | Z0 => OutOfFuel
  | Zpos p => let (r', d') := strip_twos p r in Ok (r', Zpos d')
  | Zneg p => let (r', d') := strip_twos p r in Ok (r', Zneg d')
  end.

(** ** The module, over its two collaborators *)

Section Elgamal.

(** [hashlib.sha256(msg).digest()], the library's digest function. *)
Variable sha256_digest : list byte -> list byte.

(** The raw draws behind [random.SystemRandom()]. *)
Variable entropy : nat -> Z.

(** [_rand.randrange(start, stop)]: a value of [start .. stop-1], one draw;
    [ValueError] on an empty range.  The raw draw is reduced modulo the
    width of the range, so every value of the range can come out and
    nothing else can. *)
Definition randrange (start stop : Z) : M Z :=
  fun n =>
    let width := stop - start in
    if 0 <? width then (Ok (start + entropy n mod width), S n)
    else (Raise ValueError, n).

(** [_rand.getrandbits(k)]: a value of [0 .. 2^k - 1], one draw;
    [ValueError] for a negative [k]. *)
Definition getrandbits (k : Z) : M Z :=
  fun n =>
    if k <? 0 then (Raise ValueError, n)
    else (Ok (entropy n mod 2 ^ k), S n).

(** [for _ in range(m): x = pow(x, 2, n); if x == n - 1: break] followed
    by its [else] branch: [true] when the loop was left by [break],
    [false] when it ran to its end (the [else: return False] case). *)
Fixpoint square_loop (m : nat) (n x : Z) : M bool :=
  match m with
  | O => ret false
  | S m' =>
      x' <- lift (py_pow x 2 n) ;;
      if x' =? n - 1 then ret true else square_loop m' n x'
  end.

(** [for _ in range(k): ...] of [is_prime], with [r] and [d] computed. *)
Fixpoint witness_loop (rounds : nat) (n r d : Z) : M bool :=
  match rounds with
  | O => ret true
  | S rounds' =>
      a <- randrange 2 (n - 1) ;;
      x <- lift (py_pow a d n) ;;
      if (x =? 1) || (x =? n - 1) then witness_loop rounds' n r d
      else
        found <- square_loop (Z.to_nat (r - 1)) n x ;;
        if found then witness_loop rounds' n r d else ret false
  end.

(** [is_prime(n, k)]; the callers of the module leave [k] at its default,
    40. *)
Definition is_prime (n k : Z) : M bool :=
  if n <? 2 then ret false
  else
    match small_primes_check n small_primes with
    | Some b => ret b
    | None =>
        '(r, d) <- lift (factor_twos 0 (n - 1)) ;;
        witness_loop (Z.to_nat k) n r d
    end.

Definition generate_prime_candidate (bits : Z) : M Z :=
  candidate <- getrandbits bits ;;
  top <- lift (py_shiftl 1 (bits - 1)) ;;
  ret (Z.lor candidate (Z.lor top 1)).

Definition generate_prime (fuel : nat) (bits : Z) : M Z :=
  loop fuel
    (q <- generate_prime_candidate bits ;;
     b <- is_prime q 40 ;;
     ret (if b then Some q else None)).

Definition generate_p_q (fuel : nat) (q_bits : Z) : M (Z * Z) :=
  loop fuel
    (q <- generate_prime fuel q_bits ;;
     let p := 2 * q + 1 in
     b <- is_prime p 40 ;;
     ret (if b then Some (p, q) else None)).

Definition find_generator (fuel : nat) (p q : Z) : M Z :=
  loop fuel
    (h <- randrange 2 (p - 1) ;;
     e <- lift (py_floordiv (p - 1) q) ;;
     g <- lift (py_pow h e p) ;;
     ret (if 1 <? g then Some g else None)).

Definition hash_message (msg : list byte) : M Z :=
  ret (int_from_bytes_big (sha256_digest msg)).

Definition generate_keys (p g : Z) : M (Z * Z) :=
  x <- randrange 2 (p - 2) ;;
  y <- lift (py_pow g x p) ;;
  ret (x, y).

(** One run of the body of the [while True] loop of [sign], with [h] the
    reduced digest computed before the loop. *)
Definition sign_body (p g x q h : Z) : M (option (Z * Z)) :=
  k <- randrange 2 (q - 1) ;;
  if negb (Z.gcd k q =? 1) then ret None
  else
    r <- lift (py_pow g k p) ;;
    if r =? 0 then ret None
    else
      k_inv <- lift (py_pow k (-1) q) ;;
      rq <- lift (py_mod r q) ;;
      s <- lift (py_mod (k_inv * (h - x * rq)) q) ;;
      ret (if negb (s =? 0) then Some (r, s) else None).

Definition sign (fuel : nat) (msg : list byte) (p g x q : Z) : M (Z * Z) :=
  hm <- hash_message msg ;;
  h <- lift (py_mod hm q) ;;
  loop fuel (sign_body p g x q h).

Definition verify (msg : list byte) (sig : Z * Z) (p g y q : Z) : M bool :=
  let (r, s) := sig in
  if negb (((0 <? r) && (r <? p)) && ((0 <? s) && (s <? q))) then ret false
  else
    hm <- hash_message msg ;;
    h <- lift (py_mod hm q) ;;
    yr <- lift (py_pow y r p) ;;
    rs <- lift (py_pow r s p) ;;
    v1 <- lift (py_mod (yr * rs) p) ;;
    v2 <- lift (py_pow g h p) ;;
    ret (v1 =? v2).

(** The steps of the script after the bit-length was read: parameters,
    generator, keys, one signature and its verification. *)
Definition pipeline (fuel : nat) (q_bits : Z) (msg : list byte) : M bool :=
  '(p, q) <- generate_p_q fuel q_bits ;;
  g <- find_generator fuel p q ;;
  '(x, y) <- generate_keys p g ;;
  sig <- sign fuel msg p g x q ;;
  verify msg sig p g y q.

End Elgamal.

(** ** Specification vocabulary *)

(** [post m n P]: started at position [n], the computation [m] raises
    nothing, and when it returns [a] at position [n'] then [P a n'] holds.
    [OutOfFuel] is allowed: the loops of the module have no iteration cap. *)
Definition post {A} (m : M A) (n : nat) (P : A -> nat -> Prop) : Prop :=
  match m n with
  | (Ok a, n') => P a n'
  | (Raise _, _) => False
  | (OutOfFuel, _) => True
  end.

(** One round of the witness loop on the witness [a]: what lets the loop
    go on to its next round. *)
Definition round_passes (n r d a : Z) : Prop :=
  let x := a ^ d mod n in
  x = 1 \/ x = n - 1 \/
  forall pos, square_loop (Z.to_nat (r - 1)) n x pos = (Ok true, pos).

Definition round_passes_b (n r d a : Z) : bool :=
  let x := a ^ d mod n in
  (x =? 1) || (x =? n - 1) ||
  match fst (square_loop (Z.to_nat (r - 1)) n x 0%nat) with
  | Ok true => true
  | _ => false
  end.

(** What ties a returned pair to the ephemeral exponent [k] it was built
    from, with [h] the digest reduced modulo [q]. *)
Definition signed_with (p g x q h k r s : Z) : Prop :=
  2 <= k /\ Z.gcd k q = 1 /\
  r = g ^ k mod p /\ r <> 0 /\
  s = (Z.invmod k q * (h - x * (r mod q))) mod q /\ s <> 0.

(** What one iteration of the loop of [sign] computes from the draw at
    position [m] of the tape: [k = randrange(2, q - 1)], [r = pow(g, k, p)]
    and [s = (k_inv * (h - x * (r % q))) % q], with [h] the reduced
    digest. *)
Definition ephemeral_k (entropy : nat -> Z) (q : Z) (m : nat) : Z :=
  2 + entropy m mod (q - 1 - 2).

Definition ephemeral_r (entropy : nat -> Z) (p g q : Z) (m : nat) : Z :=
  g ^ ephemeral_k entropy q m mod p.

Definition ephemeral_s (entropy : nat -> Z) (p g x q h : Z) (m : nat) : Z :=
  (Z.invmod (ephemeral_k entropy q m) q
   * (h - x * (ephemeral_r entropy p g q m mod q))) mod q.

(** Sample collaborators used to run the model. *)
Definition sample_digest (msg : list byte) : list byte := msg.
Definition sample_entropy (i : nat) : Z :=
  7919 * Z.of_nat i * Z.of_nat i + 104729 * Z.of_nat i + 13.
Definition msg_test : list byte := [x74; x65; x73; x74].

(** ** The monad and the loop rule *)

Lemma bind_ok {A B} (m : M A) (f : A -> M B) n a n' :
  m n = (Ok a, n') -> bind m f n = f a n'.
Proof. intros H. unfold bind. now rewrite H. Qed.

Lemma bind_lift_ok {A B} (o : outcome A) (f : A -> M B) n a :
  o = Ok a -> bind (lift o) f n = f a n.
Proof. intros ->. reflexivity. Qed.

Lemma post_ret {A} (a : A) n (P : A -> nat -> Prop) : P a n -> post (ret a) n P.
Proof. exact (fun H => H). Qed.

Lemma post_bind {A B} (m : M A) (f : A -> M B) n (Q : B -> nat -> Prop) :
  post m n (fun a n' => post (f a) n' Q) -> post (bind m f) n Q.
Proof.
  unfold post, bind. destruct (m n) as [[a | e |] n']; auto.
Qed.

Lemma post_weaken {A} (m : M A) n (P Q : A -> nat -> Prop) :
  (forall a n', P a n' -> Q a n') -> post m n P -> post m n Q.
Proof.
  unfold post. destruct (m n) as [[a | e |] n']; auto.
Qed.

Lemma post_returns {A} (m : M A) n (P : A -> nat -> Prop) a n' :
  post m n P -> m n = (Ok a, n') -> P a n'.
Proof. unfold post. intros H E. now rewrite E in H. Qed.

(** Whatever a [while True] loop returns was returned by one run of its
    body, and the loop raises only if its body does. *)
Lemma post_loop {A} (body : M (option A)) (P : A -> nat -> Prop) :
  (forall n, post body n
     (fun o n' => match o with Some a => P a n' | None => True end)) ->
  forall fuel n, post (loop fuel body) n P.
Proof.
  intros Hbody fuel. induction fuel as [| fuel IH]; intros n.
  - exact I.
  - cbn [loop]. apply post_bind.
    refine (post_weaken _ _ _ _ _ (Hbody n)).
    intros [a |] n' Ho; [exact Ho | apply IH].
Qed.

(** A loop whose body always falls through never returns. *)
Lemma loop_never {A} (body : M (option A)) :
  (forall n, exists n', body n = (Ok None, n')) ->
  forall fuel n, exists n', loop fuel body n = (OutOfFuel, n').
Proof.
  intros Hbody fuel. induction fuel as [| fuel IH]; intros n.
  - exists n. reflexivity.
  - destruct (Hbody n) as [n1 E]. destruct (IH n1) as [n2 E2].
    exists n2. cbn [loop]. now rewrite (bind_ok _ _ _ _ _ E).
Qed.

(** A loop whose body returns at once returns at once. *)
Lemma loop_first {A} (body : M (option A)) fuel n a n' :
  body n = (Ok (Some a), n') -> loop (S fuel) body n = (Ok a, n').
Proof. intros H. cbn [loop]. now rewrite (bind_ok _ _ _ _ _ H). Qed.

(** A loop returns at the first iteration whose body returns: after [j]
    iterations that fell through, each on one draw, the value of iteration
    [j] is the value of the loop, provided the budget reaches it. *)
Lemma loop_first_accepted {A} (body : M (option A)) j :
  forall fuel n a n',
    (forall i, (i < j)%nat -> body (n + i)%nat = (Ok None, S (n + i))) ->
    body (n + j)%nat = (Ok (Some a), n') ->
    (j < fuel)%nat ->
    loop fuel body n = (Ok a, n').
Proof.
  induction j as [| j IH]; intros fuel n a n' Hrej Hacc Hfuel.
  - destruct fuel as [| fuel]; [lia |].
    rewrite Nat.add_0_r in Hacc. now apply loop_first.
  - destruct fuel as [| fuel]; [lia |]. cbn [loop].
    pose proof (Hrej 0%nat ltac:(lia)) as H0. rewrite Nat.add_0_r in H0.
    rewrite (bind_ok _ _ _ _ _ H0).
    apply IH; [| | lia].
    + intros i Hi. replace (S n + i)%nat with (n + S i)%nat by lia.
      apply Hrej. lia.
    + replace (S n + j)%nat with (n + S j)%nat by lia. exact Hacc.
Qed.

(** A loop whose body falls through on every draw of its budget is still
    running when the budget ends. *)
Lemma loop_all_rejected {A} (body : M (option A)) fuel :
  forall n,
    (forall i, (i < fuel)%nat -> body (n + i)%nat = (Ok None, S (n + i))) ->
    loop fuel body n = (@OutOfFuel A, (n + fuel)%nat).
Proof.
  induction fuel as [| fuel IH]; intros n Hrej.
  - cbn [loop]. now rewrite Nat.add_0_r.
  - cbn [loop].
    pose proof (Hrej 0%nat ltac:(lia)) as H0. rewrite Nat.add_0_r in H0.
    rewrite (bind_ok _ _ _ _ _ H0), IH.
    + f_equal. lia.
    + intros i Hi. replace (S n + i)%nat with (n + S i)%nat by lia.
      apply Hrej. lia.
Qed.

(** ** Primitives *)

Lemma py_mod_ok a m : m <> 0 -> py_mod a m = Ok (a mod m).
Proof. unfold py_mod. destruct (Z.eqb_spec m 0); [contradiction | reflexivity]. Qed.

Lemma py_pow_ok b e m : m <> 0 -> 0 <= e -> py_pow b e m = Ok (b ^ e mod m).
Proof.
  intros Hm He. unfold py_pow.
  destruct (Z.eqb_spec m 0); [contradiction |].
  destruct (Z.leb_spec 0 e); [reflexivity | lia].
Qed.

Lemma py_pow_inverse k q :
  q <> 0 -> Z.gcd k q = 1 -> py_pow k (-1) q = Ok (Z.invmod k q).
Proof.
  intros Hq Hg. unfold py_pow.
  destruct (Z.eqb_spec q 0); [contradiction |].
  cbn [Z.leb Z.compare Z.opp]. rewrite Hg. cbn [Z.eqb Pos.eqb].
  change (- -1) with 1. rewrite Z.pow_1_r. now rewrite Z.mod_invmod.
Qed.

Lemma randrange_ok (entropy : nat -> Z) start stop n :
  start < stop ->
  randrange entropy start stop n
  = (Ok (start + entropy n mod (stop - start)), S n).
Proof.
  intros H. unfold randrange. cbv zeta.
  destruct (Z.ltb_spec 0 (stop - start)); [reflexivity | lia].
Qed.

Lemma randrange_range (entropy : nat -> Z) start stop n :
  start < stop -> start <= start + entropy n mod (stop - start) < stop.
Proof.
  intros H. pose proof (Z.mod_pos_bound (entropy n) (stop - start)). lia.
Qed.

Lemma int_from_bytes_big_nonneg bs : 0 <= int_from_bytes_big bs.
Proof.
  unfold int_from_bytes_big.
  assert (G : forall acc, 0 <= acc ->
    0 <= fold_left (fun acc b => acc * 256 + Z.of_N (Byte.to_N b)) bs acc).
  { induction bs as [| b bs IH]; intros acc Hacc; cbn [fold_left]; [exact Hacc |].
    apply IH. pose proof (N2Z.is_nonneg (Byte.to_N b)). lia. }
  apply G. lia.
Qed.

(** The [while] loop of [is_prime] that splits [n - 1]: one unfolding of
    [while d % 2 == 0: d //= 2; r += 1]. *)
Lemma factor_twos_unfold r d :
  factor_twos r d =
  if d mod 2 =? 0
  then (if d =? 0 then OutOfFuel else factor_twos (r + 1) (d / 2))
  else Ok (r, d).
Proof.
  destruct d as [| p | p]; [reflexivity | |].
  - destruct p as [p | p |].
    + rewrite Pos2Z.inj_xI.
      replace ((2 * Z.pos p + 1) mod 2) with 1
        by (apply (Z.mod_unique _ _ (Z.pos p)); lia).
      reflexivity.
    + rewrite Pos2Z.inj_xO.
      replace ((2 * Z.pos p) mod 2) with 0
        by (apply (Z.mod_unique _ _ (Z.pos p)); lia).
      replace (2 * Z.pos p / 2) with (Z.pos p)
        by (apply (Z.div_unique _ _ _ 0); lia).
      reflexivity.
    + reflexivity.
  - destruct p as [p | p |].
    + change (Z.neg p~1) with (- Z.pos p~1). rewrite Pos2Z.inj_xI.
      replace ((- (2 * Z.pos p + 1)) mod 2) with 1
        by (apply (Z.mod_unique _ _ (- Z.pos p - 1)); lia).
      reflexivity.
    + change (Z.neg p~0) with (- Z.pos p~0). rewrite Pos2Z.inj_xO.
      replace ((- (2 * Z.pos p)) mod 2) with 0
        by (apply (Z.mod_unique _ _ (- Z.pos p)); lia).
      replace (- (2 * Z.pos p) / 2) with (- Z.pos p)
        by (apply (Z.div_unique _ _ _ 0); lia).
      reflexivity.
    + reflexivity.
Qed.

(** ** Verification *)

Section Verify.

Variable sha256_digest : list byte -> list byte.

Lemma verify_out_of_range msg r s p g y q n :
  r <= 0 \/ p <= r \/ s <= 0 \/ q <= s ->
  verify sha256_digest msg (r, s) p g y q n = (Ok false, n).
Proof.
  intros Hr. unfold verify.
  destruct (Z.ltb_spec 0 r), (Z.ltb_spec r p), (Z.ltb_spec 0 s),
    (Z.ltb_spec s q); cbn [andb negb]; try reflexivity; lia.
Qed.

(** On a pair that passes the range check, [verify] evaluates the
    verification equation and nothing can fail on the way. *)
Lemma verify_in_range msg r s p g y q n :
  0 < r < p -> 0 < s < q ->
  verify sha256_digest msg (r, s) p g y q n
  = (Ok ((y ^ r mod p * (r ^ s mod p)) mod p
       =? g ^ (int_from_bytes_big (sha256_digest msg) mod q) mod p), n).
Proof.
  intros Hr Hs. unfold verify.
  destruct (Z.ltb_spec 0 r), (Z.ltb_spec r p), (Z.ltb_spec 0 s),
    (Z.ltb_spec s q); try lia. cbn [andb negb].
  unfold hash_message. unfold bind at 1. unfold ret at 1.
  rewrite (bind_lift_ok _ _ _ _ (py_mod_ok _ q ltac:(lia))).
  rewrite (bind_lift_ok _ _ _ _ (py_pow_ok y r p ltac:(lia) ltac:(lia))).
  rewrite (bind_lift_ok _ _ _ _ (py_pow_ok r s p ltac:(lia) ltac:(lia))).
  rewrite (bind_lift_ok _ _ _ _ (py_mod_ok _ p ltac:(lia))).
  assert (Hh : 0 <= int_from_bytes_big (sha256_digest msg) mod q)
    by (apply Z.mod_pos_bound; lia).
  rewrite (bind_lift_ok _ _ _ _ (py_pow_ok g _ p ltac:(lia) Hh)).
  reflexivity.
Qed.

(** [verify] never draws and never fails. *)
Lemma verify_pure msg r s p g y q :
  exists b, forall n, verify sha256_digest msg (r, s) p g y q n = (Ok b, n).
Proof.
  destruct (Z_lt_le_dec 0 r) as [Hr0 | Hr0];
    [| exists false; intros n; apply verify_out_of_range; lia].
  destruct (Z_lt_le_dec r p) as [Hrp | Hrp];
    [| exists false; intros n; apply verify_out_of_range; lia].
  destruct (Z_lt_le_dec 0 s) as [Hs0 | Hs0];
    [| exists false; intros n; apply verify_out_of_range; lia].
  destruct (Z_lt_le_dec s q) as [Hsq | Hsq];
    [| exists false; intros n; apply verify_out_of_range; lia].
  eexists. intros n. apply verify_in_range; lia.
Qed.

(** C2: [verify] answers [False] on every pair with [r <= 0], [r >= p],
    [s <= 0] or [s >= q], and on every input whatsoever it returns a
    boolean: it raises nothing and leaves the random source untouched. *)
Theorem verify_total_and_rejects_out_of_range :
  forall msg r s p g y q n,
    (exists b, verify sha256_digest msg (r, s) p g y q n = (Ok b, n)) /\
    (r <= 0 \/ p <= r \/ s <= 0 \/ q <= s ->
     verify sha256_digest msg (r, s) p g y q n = (Ok false, n)).
Proof.
  intros msg r s p g y q n. split.
  - destruct (verify_pure msg r s p g y q) as [b Hb]. now exists b.
  - apply verify_out_of_range.
Qed.

(** C9: [verify] is deterministic.  Two calls with the same arguments,
    made at any two positions of the random tape, return the same boolean,
    and each leaves the tape where it found it: no draw is consumed. *)
Theorem verify_deterministic :
  forall msg sig p g y q n1 n2,
  exists b,
    verify sha256_digest msg sig p g y q n1 = (Ok b, n1) /\
    verify sha256_digest msg sig p g y q n2 = (Ok b, n2).
Proof.
  intros msg [r s] p g y q n1 n2.
  destruct (verify_pure msg r s p g y q) as [b Hb].
  exists b. split; apply Hb.
Qed.

End Verify.

(** ** The primality test *)

Lemma square_loop_total m n x :
  n <> 0 -> exists b, forall pos, square_loop m n x pos = (Ok b, pos).
Proof.
  intros Hn. revert x. induction m as [| m IH]; intros x.
  - exists false. reflexivity.
  - destruct (IH (x ^ 2 mod n)) as [b Hb].
    exists (if x ^ 2 mod n =? n - 1 then true else b). intros pos.
    cbn [square_loop].
    rewrite (bind_lift_ok _ _ _ _ (py_pow_ok x 2 n Hn ltac:(lia))).
    destruct (x ^ 2 mod n =? n - 1); [reflexivity | apply Hb].
Qed.

Lemma round_passes_b_sound n r d a :
  n <> 0 -> round_passes_b n r d a = true -> round_passes n r d a.
Proof.
  intros Hn. unfold round_passes_b, round_passes. cbv zeta.
  destruct (Z.eqb_spec (a ^ d mod n) 1) as [E1 | _]; [now left |].
  destruct (Z.eqb_spec (a ^ d mod n) (n - 1)) as [E2 | _]; [now (right; left) |].
  cbn [orb]. intros Hb. right. right. intros pos.
  destruct (square_loop_total (Z.to_nat (r - 1)) n (a ^ d mod n) Hn) as [b Hsq].
  rewrite Hsq in Hb. cbn [fst] in Hb. rewrite Hsq.
  destruct b; [reflexivity | discriminate].
Qed.

Lemma strip_twos_spec p : forall r r' p',
  strip_twos p r = (r', p') ->
  r <= r' /\ Z.pos p = 2 ^ (r' - r) * Z.pos p' /\ Z.odd (Z.pos p') = true.
Proof.
  induction p as [p IH | p IH |]; intros r r' p' E; cbn [strip_twos] in E.
  - injection E as <- <-. rewrite Z.sub_diag. repeat split; lia.
  - destruct (IH _ _ _ E) as (Hle & Hp & Hodd).
    repeat split; [lia | | exact Hodd].
    rewrite Pos2Z.inj_xO, Hp.
    replace (r' - r) with (Z.succ (r' - (r + 1))) by lia.
    rewrite Z.pow_succ_r by lia. ring.
  - injection E as <- <-. rewrite Z.sub_diag. repeat split; lia.
Qed.

Lemma factor_twos_pos d :
  0 < d ->
  exists r' d', factor_twos 0 d = Ok (r', d') /\
    0 <= r' /\ 0 < d' /\ d = 2 ^ r' * d' /\ Z.odd d' = true.
Proof.
  intros Hd. destruct d as [| p | p]; try lia.
  unfold factor_twos. destruct (strip_twos p 0) as [r' p'] eqn:E.
  destruct (strip_twos_spec _ _ _ _ E) as (Hle & Hp & Hodd).
  exists r', (Z.pos p'). rewrite Z.sub_0_r in Hp. repeat split; auto; lia.
Qed.

Lemma small_primes_check_none n :
  small_primes_check n small_primes = None ->
  n <> 2 /\ n <> 3 /\ n mod 2 <> 0.
Proof.
  unfold small_primes. cbn [small_primes_check].
  destruct (Z.eqb_spec n 2); [discriminate |].
  destruct (Z.eqb_spec (n mod 2) 0); [discriminate |].
  destruct (Z.eqb_spec n 3); [discriminate |]. auto.
Qed.

(** A prime is never rejected by the trial divisions. *)
Lemma small_primes_check_prime n ps :
  Z.prime n -> Forall (fun p => 1 < p) ps ->
  small_primes_check n ps <> Some false.
Proof.
  intros [Hn1 Hn] Hps. induction Hps as [| p ps Hp _ IH]; cbn [small_primes_check].
  - discriminate.
  - destruct (Z.eqb_spec n p) as [-> | Hne]; [discriminate |].
    destruct (Z.eqb_spec (n mod p) 0) as [E | _]; [| exact IH].
    exfalso. apply Z.mod_divide in E; [| lia].
    assert (p <= n) by (apply Z.divide_pos_le; [lia | exact E]).
    apply (Hn p); [lia | exact E].
Qed.

Lemma small_primes_above_1 : Forall (fun p => 1 < p) small_primes.
Proof. unfold small_primes. repeat constructor. Qed.

Section PrimalityTest.

Variable entropy : nat -> Z.

Lemma witness_loop_total n r d :
  3 < n -> 0 <= d ->
  forall rounds pos,
  exists b pos', witness_loop entropy rounds n r d pos = (Ok b, pos').
Proof.
  intros Hn Hd rounds. induction rounds as [| rounds IH]; intros pos.
  - exists true, pos. reflexivity.
  - cbn [witness_loop].
    rewrite (bind_ok _ _ _ _ _ (randrange_ok entropy 2 (n - 1) pos ltac:(lia))).
    rewrite (bind_lift_ok _ _ _ _ (py_pow_ok _ d n ltac:(lia) Hd)).
    match goal with |- context [if ?c then _ else _] => destruct c end;
      [apply IH |].
    match goal with |- context [square_loop ?m n ?x] =>
      destruct (square_loop_total m n x ltac:(lia)) as [b Hb] end.
    rewrite (bind_ok _ _ _ _ _ (Hb _)).
    destruct b; [apply IH |]. exists false, (S pos). reflexivity.
Qed.

(** When every witness of [2 .. n-2] passes its round, the loop answers
    [True] after [rounds] draws. *)
Lemma witness_loop_all_pass n r d :
  3 < n -> 0 <= d ->
  (forall a, 2 <= a <= n - 2 -> round_passes n r d a) ->
  forall rounds pos,
    witness_loop entropy rounds n r d pos = (Ok true, (pos + rounds)%nat).
Proof.
  intros Hn Hd Hall rounds. induction rounds as [| rounds IH]; intros pos.
  - cbn [witness_loop]. unfold ret. now rewrite Nat.add_0_r.
  - cbn [witness_loop].
    rewrite (bind_ok _ _ _ _ _ (randrange_ok entropy 2 (n - 1) pos ltac:(lia))).
    rewrite (bind_lift_ok _ _ _ _ (py_pow_ok _ d n ltac:(lia) Hd)).
    pose proof (randrange_range entropy 2 (n - 1) pos ltac:(lia)) as Ha.
    set (a := 2 + entropy pos mod (n - 1 - 2)) in *.
    replace (pos + S rounds)%nat with (S pos + rounds)%nat by lia.
    destruct (Hall a ltac:(lia)) as [E | [E | E]]; cbv zeta in E.
    + rewrite E. cbn [Z.eqb Pos.eqb orb]. apply IH.
    + rewrite E, (Z.eqb_refl (n - 1)), orb_true_r. apply IH.
    + match goal with |- context [if ?c then _ else _] => destruct c end;
        [apply IH |].
      rewrite (bind_ok _ _ _ _ _ (E _)). apply IH.
Qed.

Lemma is_prime_total n k pos :
  exists b pos', is_prime entropy n k pos = (Ok b, pos').
Proof.
  unfold is_prime. destruct (Z.ltb_spec n 2) as [Hlt | Hge].
  - exists false, pos. reflexivity.
  - destruct (small_primes_check n small_primes) as [b |] eqn:E.
    + exists b, pos. reflexivity.
    + destruct (small_primes_check_none n E) as (N2 & N3 & _).
      destruct (factor_twos_pos (n - 1) ltac:(lia))
        as (r & d & Hf & Hr & Hd & _).
      rewrite (bind_lift_ok _ _ _ _ Hf).
      apply witness_loop_total; lia.
Qed.

Lemma is_prime_post n k pos (P : bool -> nat -> Prop) :
  (forall b pos', is_prime entropy n k pos = (Ok b, pos') -> P b pos') ->
  post (is_prime entropy n k) pos P.
Proof.
  intros HP. unfold post.
  destruct (is_prime_total n k pos) as (b & pos' & E).
  rewrite E. now apply HP.
Qed.

End PrimalityTest.

(** *** No prime is rejected *)

(** Modulo a prime, the square roots of [1] are [1] and [n - 1]. *)
Lemma sqrt_one_mod_prime n x :
  Z.prime n -> 0 <= x < n -> (x * x) mod n = 1 -> x = 1 \/ x = n - 1.
Proof.
  intros Hp Hx Hsq. pose proof (Z.prime_ge_2 _ Hp) as Hn.
  assert (Hd : (n | (x - 1) * (x + 1))).
  { replace ((x - 1) * (x + 1)) with (x * x - 1) by ring.
    apply Zmod_divide_minus; [lia | exact Hsq]. }
  apply (Z.divide_prime_mul _ _ _ Hp) in Hd.
  destruct Hd as [[c Hc] | [c Hc]].
  - left. assert (c = 0) by nia. subst c. lia.
  - right. assert (c = 1) by nia. subst c. lia.
Qed.

Lemma square_loop_finds n :
  Z.prime n ->
  forall m x,
    0 <= x < n -> x <> 1 -> x <> n - 1 ->
    x ^ (2 ^ (Z.of_nat m + 1)) mod n = 1 ->
    forall pos, square_loop m n x pos = (Ok true, pos).
Proof.
  intros Hp. pose proof (Z.prime_ge_2 _ Hp) as Hn.
  induction m as [| m IH]; intros x Hx H1 Hm1 Hpow pos.
  - exfalso. change (2 ^ (Z.of_nat 0 + 1)) with 2 in Hpow.
    rewrite Z.pow_2_r in Hpow.
    destruct (sqrt_one_mod_prime n x Hp Hx Hpow); contradiction.
  - cbn [square_loop].
    rewrite (bind_lift_ok _ _ _ _ (py_pow_ok x 2 n ltac:(lia) ltac:(lia))).
    destruct (Z.eqb_spec (x ^ 2 mod n) (n - 1)) as [_ | Hne]; [reflexivity |].
    apply IH.
    + apply Z.mod_pos_bound. lia.
    + intros E. rewrite Z.pow_2_r in E.
      destruct (sqrt_one_mod_prime n x Hp Hx E); contradiction.
    + exact Hne.
    + rewrite Z.mod_pow_l, <- Z.pow_mul_r by lia.
      replace (2 * 2 ^ (Z.of_nat m + 1)) with (2 ^ (Z.of_nat (S m) + 1));
        [exact Hpow |].
      replace (Z.of_nat (S m) + 1) with (Z.succ (Z.of_nat m + 1)) by lia.
      rewrite Z.pow_succ_r by lia. reflexivity.
Qed.

(** Miller-Rabin is complete: on an odd prime every witness passes. *)
Lemma prime_round_passes n r d :
  Z.prime n -> 1 <= r -> 0 < d -> n - 1 = 2 ^ r * d ->
  forall a, 2 <= a <= n - 2 -> round_passes n r d a.
Proof.
  intros Hp Hr Hd Hnd a Ha. unfold round_passes. cbv zeta.
  pose proof (Z.prime_ge_2 _ Hp) as Hn.
  destruct (Z.eq_dec (a ^ d mod n) 1) as [E1 | N1]; [now left |].
  destruct (Z.eq_dec (a ^ d mod n) (n - 1)) as [E2 | N2]; [now (right; left) |].
  right. right. apply (square_loop_finds n Hp); auto.
  - apply Z.mod_pos_bound. lia.
  - rewrite Z2Nat.id by lia. replace (r - 1 + 1) with r by lia.
    rewrite Z.mod_pow_l, <- Z.pow_mul_r by (try apply Z.pow_nonneg; lia).
    replace (d * 2 ^ r) with (n - 1) by (rewrite Hnd; ring).
    apply Zmod.ZmodInv.Z.fermat_nz; [exact Hp |].
    rewrite Z.mod_small; lia.
Qed.

Section PrimalityClaims.

Variable entropy : nat -> Z.

(** C10: the test has no false negative.  For every prime [n], every
    number of rounds [k] (a [k <= 0] runs no round) and every tape of
    random witnesses, [is_prime n k] returns [True]. *)
Theorem is_prime_no_false_negative :
  forall n k pos,
    Z.prime n -> 2 <= n -> 0 <= k ->
    exists pos', is_prime entropy n k pos = (Ok true, pos').
Proof.
  intros n k pos Hp Hn _.
  unfold is_prime. destruct (Z.ltb_spec n 2) as [Hlt | _]; [lia |].
  destruct (small_primes_check n small_primes) as [[|] |] eqn:E.
  - exists pos. reflexivity.
  - exfalso. exact (small_primes_check_prime n _ Hp small_primes_above_1 E).
  - destruct (small_primes_check_none n E) as (N2 & N3 & Hodd).
    destruct (factor_twos_pos (n - 1) ltac:(lia))
      as (r & d & Hf & Hr & Hd & Hnd & Hdodd).
    rewrite (bind_lift_ok _ _ _ _ Hf).
    assert (Hr1 : 1 <= r).
    { destruct (Z.eq_dec r 0) as [-> | ]; [| lia]. exfalso.
      rewrite Z.pow_0_r, Z.mul_1_l in Hnd.
      rewrite <- Hnd in Hdodd. apply Hodd.
      rewrite Zmod_odd. replace n with (Z.succ (n - 1)) by lia.
      rewrite Z.odd_succ, <- Z.negb_odd, Hdodd. reflexivity. }
    eexists. apply witness_loop_all_pass; [lia | lia |].
    apply prime_round_passes; auto.
Qed.

(** Every witness of [2 .. 95] passes its round on [97 - 1 = 2^5 * 3]. *)
Lemma all_witnesses_97 :
  forall a, 2 <= a <= 97 - 2 -> round_passes 97 5 3 a.
Proof.
  assert (Hall : forallb (fun i => round_passes_b 97 5 3 (2 + Z.of_nat i))
                   (seq 0 94) = true) by (vm_compute; reflexivity).
  intros a Ha. apply round_passes_b_sound; [lia |].
  rewrite forallb_forall in Hall.
  replace a with (2 + Z.of_nat (Z.to_nat (a - 2))) by lia.
  apply Hall. apply in_seq. lia.
Qed.

(** C6: [is_prime] returns a boolean on every integer, for every number
    of rounds and every tape: it raises nothing.  It answers [False] below
    2, and on the known values it answers [True] for 2 and 97 and [False]
    for 4 and for the Carmichael number 561, whatever the witnesses. *)
Theorem is_prime_total_and_known_values :
  forall n k pos,
    (exists b pos', is_prime entropy n k pos = (Ok b, pos')) /\
    (n < 2 -> is_prime entropy n k pos = (Ok false, pos)) /\
    is_prime entropy 2 k pos = (Ok true, pos) /\
    is_prime entropy 4 k pos = (Ok false, pos) /\
    is_prime entropy 97 k pos = (Ok true, (pos + Z.to_nat k)%nat) /\
    is_prime entropy 561 k pos = (Ok false, pos).
Proof.
  intros n k pos. split; [apply is_prime_total |].
  split.
  { intros Hn. unfold is_prime.
    destruct (Z.ltb_spec n 2); [reflexivity | lia]. }
  repeat split; try reflexivity.
  change (is_prime entropy 97 k pos)
    with (witness_loop entropy (Z.to_nat k) 97 5 3 pos).
  apply witness_loop_all_pass; [lia | lia | apply all_witnesses_97].
Qed.

End PrimalityClaims.

(** ** Generation of candidates, primes, parameters and keys *)

Lemma post_of_eq {A} (m : M A) n a n' (P : A -> nat -> Prop) :
  m n = (Ok a, n') -> P a n' -> post m n P.
Proof. intros E HP. unfold post. now rewrite E. Qed.

Lemma post_bind_lift {A B} (o : outcome A) (f : A -> M B) n a
      (Q : B -> nat -> Prop) :
  o = Ok a -> post (f a) n Q -> post (bind (lift o) f) n Q.
Proof. intros -> H. exact H. Qed.

Section Generation.

Variable entropy : nat -> Z.

(** The candidate is [getrandbits(bits) | (1 << (bits - 1)) | 1]. *)
Lemma generate_prime_candidate_ok bits n :
  1 <= bits ->
  generate_prime_candidate entropy bits n
  = (Ok (Z.lor (entropy n mod 2 ^ bits) (Z.lor (2 ^ (bits - 1)) 1)), S n).
Proof.
  intros Hb. unfold generate_prime_candidate, getrandbits, bind at 1.
  destruct (Z.ltb_spec bits 0); [lia |].
  unfold py_shiftl. destruct (Z.ltb_spec (bits - 1) 0); [lia |].
  rewrite Z.shiftl_1_l. reflexivity.
Qed.

Lemma candidate_shape bits e :
  1 <= bits ->
  let c := Z.lor (e mod 2 ^ bits) (Z.lor (2 ^ (bits - 1)) 1) in
  Z.odd c = true /\ bit_length c = bits /\
  Z.testbit c (bits - 1) = true /\ Z.testbit c 0 = true.
Proof.
  intros Hb c.
  assert (He : 0 <= e mod 2 ^ bits < 2 ^ bits)
    by (apply Z.mod_pos_bound, Z.pow_pos_nonneg; lia).
  assert (Ht : 0 < 2 ^ (bits - 1)) by (apply Z.pow_pos_nonneg; lia).
  assert (H0 : Z.testbit c 0 = true).
  { unfold c. rewrite !Z.lor_spec. cbn [Z.testbit]. now rewrite !orb_true_r. }
  assert (Hc0 : 0 <= c).
  { unfold c. rewrite !Z.lor_nonneg. lia. }
  assert (Hodd : Z.odd c = true) by (now rewrite <- Z.bit0_odd).
  assert (Hlog : Z.log2 c = bits - 1).
  { unfold c. rewrite !Z.log2_lor by (try rewrite Z.lor_nonneg; lia).
    rewrite Z.log2_pow2 by lia. change (Z.log2 1) with 0.
    destruct (Z.eq_dec (e mod 2 ^ bits) 0) as [-> | Hne].
    - change (Z.log2 0) with 0. lia.
    - assert (Z.log2 (e mod 2 ^ bits) < bits)
        by (apply Z.log2_lt_pow2; lia).
      pose proof (Z.log2_nonneg (e mod 2 ^ bits)). lia. }
  repeat split; auto.
  - unfold bit_length. destruct (Z.eqb_spec c 0) as [E0 | _].
    + rewrite E0 in Hodd. discriminate.
    + rewrite Z.abs_eq by lia. lia.
  - unfold c. rewrite !Z.lor_spec, Z.pow2_bits_true by lia.
    now rewrite orb_true_r.
Qed.

Lemma generate_prime_post fuel bits n :
  1 <= bits ->
  post (generate_prime entropy fuel bits) n
    (fun q n' => Z.odd q = true /\ bit_length q = bits /\
                 exists i, is_prime entropy q 40 i = (Ok true, n')).
Proof.
  intros Hb. revert n. unfold generate_prime. apply post_loop. intros n.
  apply post_bind.
  apply (post_of_eq _ _ _ _ _ (generate_prime_candidate_ok bits n Hb)).
  apply post_bind. apply is_prime_post. intros [|] pos' E; apply post_ret.
  - destruct (candidate_shape bits (entropy n) Hb) as (Ho & Hl & _).
    repeat split; auto. now exists (S n).
  - exact I.
Qed.

(** C8: for [bits >= 2], every candidate that [generate_prime] builds has
    its lowest and its highest bit set, hence is odd and has bit-length
    exactly [bits]; so has every prime that [generate_prime] returns, and
    [generate_prime] raises nothing. *)
Theorem candidates_are_odd_of_exact_bit_length :
  forall bits,
    2 <= bits ->
    (forall n, exists c,
        generate_prime_candidate entropy bits n = (Ok c, S n) /\
        Z.odd c = true /\ bit_length c = bits /\
        Z.testbit c (bits - 1) = true /\ Z.testbit c 0 = true) /\
    (forall fuel n,
        post (generate_prime entropy fuel bits) n
          (fun q _ => Z.odd q = true /\ bit_length q = bits)).
Proof.
  intros bits Hb. split.
  - intros n. eexists. split.
    + apply generate_prime_candidate_ok. lia.
    + apply candidate_shape. lia.
  - intros fuel n.
    refine (post_weaken _ _ _ _ _ (generate_prime_post fuel bits n ltac:(lia))).
    intros q n' (Ho & Hl & _). now split.
Qed.

(** C5: for [q_bits >= 8], [generate_p_q] raises nothing, and every pair
    [(p, q)] it returns has [p = 2*q + 1], with [q] and [p] both answered
    [True] by [is_prime] (40 rounds) on the draws of this run. *)
Theorem generate_p_q_returns_tested_pair :
  forall q_bits fuel n,
    8 <= q_bits ->
    post (generate_p_q entropy fuel q_bits) n
      (fun pq n' =>
         fst pq = 2 * snd pq + 1 /\
         (exists i j, is_prime entropy (snd pq) 40 i = (Ok true, j)) /\
         (exists i, is_prime entropy (fst pq) 40 i = (Ok true, n'))).
Proof.
  intros q_bits fuel n Hb. revert n. unfold generate_p_q.
  apply post_loop. intros n. apply post_bind.
  refine (post_weaken _ _ _ _ _ (generate_prime_post fuel q_bits n ltac:(lia))).
  intros q n1 (_ & _ & i & Hi). cbv zeta.
  apply post_bind. apply is_prime_post. intros [|] n2 E; apply post_ret.
  - cbn [fst snd]. repeat split; eauto.
  - exact I.
Qed.

(** C7: for [p > 4], [generate_keys] returns at once, after one draw and
    without error, a pair [(x, y)] with [2 <= x <= p - 3] and
    [y = g^x mod p]. *)
Theorem generate_keys_in_range :
  forall p g n,
    4 < p ->
    exists x,
      generate_keys entropy p g n = (Ok (x, g ^ x mod p), S n) /\
      2 <= x <= p - 3.
Proof.
  intros p g n Hp. exists (2 + entropy n mod (p - 2 - 2)).
  pose proof (randrange_range entropy 2 (p - 2) n ltac:(lia)) as Hx.
  assert (Hx0 : 0 <= 2 + entropy n mod (p - 2 - 2)) by lia.
  split; [| lia]. unfold generate_keys.
  rewrite (bind_ok _ _ _ _ _ (randrange_ok entropy 2 (p - 2) n ltac:(lia))).
  rewrite (bind_lift_ok _ _ _ _ (py_pow_ok g _ p ltac:(lia) Hx0)).
  reflexivity.
Qed.

(** C4: for a prime [p > 3] and a prime [q] dividing [p - 1],
    [find_generator] raises nothing, and every [g] it returns has
    [1 < g < p] and [pow(g, q, p) == 1]. *)
Theorem find_generator_order_divides_q :
  forall p q fuel n,
    Z.prime p -> 3 < p -> Z.prime q -> (q | p - 1) ->
    post (find_generator entropy fuel p q) n
      (fun g _ => 1 < g < p /\ py_pow g q p = Ok 1).
Proof.
  intros p q fuel n Hp Hp3 Hq [c Hc]. revert n.
  pose proof (Z.prime_ge_2 _ Hq) as Hq2.
  assert (Hc0 : 0 <= c) by nia.
  unfold find_generator. apply post_loop. intros n.
  apply post_bind.
  apply (post_of_eq _ _ _ _ _ (randrange_ok entropy 2 (p - 1) n ltac:(lia))).
  pose proof (randrange_range entropy 2 (p - 1) n ltac:(lia)) as Hh.
  set (h := 2 + entropy n mod (p - 1 - 2)) in *.
  apply (post_bind_lift _ _ _ c).
  { unfold py_floordiv. destruct (Z.eqb_spec q 0); [lia |].
    now rewrite Hc, Z.div_mul by lia. }
  apply (post_bind_lift _ _ _ _ _ (py_pow_ok h c p ltac:(lia) Hc0)).
  apply post_ret. destruct (Z.ltb_spec 1 (h ^ c mod p)) as [Hg | _]; [| exact I].
  pose proof (Z.mod_pos_bound (h ^ c) p ltac:(lia)).
  split; [lia |].
  rewrite py_pow_ok by lia. f_equal.
  rewrite Z.mod_pow_l, <- Z.pow_mul_r, <- Hc by lia.
  apply Zmod.ZmodInv.Z.fermat_nz; [exact Hp |].
  rewrite Z.mod_small; lia.
Qed.

End Generation.

(** ** Signing *)

(** Exponents of an element of order dividing [q] count modulo [q]. *)
Lemma pow_mod_order p q g a :
  0 < q -> 0 <= a -> g ^ q mod p = 1 -> g ^ a mod p = g ^ (a mod q) mod p.
Proof.
  intros Hq Ha Hg.
  pose proof (Z.mod_pos_bound a q Hq) as Hm.
  assert (Hd : 0 <= a / q) by (apply Z.div_pos; lia).
  rewrite (Z.div_mod a q) at 1 by lia.
  rewrite Z.pow_add_r, Z.pow_mul_r by nia.
  rewrite Zmult_mod, <- Z.mod_pow_l, Hg, Z.pow_1_l by lia.
  rewrite <- Zmult_mod, Z.mul_1_l. reflexivity.
Qed.

(** The exponent that verification reaches is the digest, modulo [q]. *)
Lemma exponent_congruence q x k h r s :
  2 <= q -> Z.gcd k q = 1 -> 0 <= h < q ->
  s = (Z.invmod k q * (h - x * (r mod q))) mod q ->
  (x * r + k * s) mod q = h.
Proof.
  intros Hq Hg Hh Hs.
  symmetry. apply Z.mod_unique with
    (q := x * (r / q) + (Z.invmod k q * k / q) * (h - x * (r mod q))
          - k * (Z.invmod k q * (h - x * (r mod q)) / q));
    [left; exact Hh |].
  pose proof (Z.invmod_coprime k q Hq Hg) as Hinv.
  pose proof (Z.div_mod (Z.invmod k q * k) q ltac:(lia)) as Hk.
  rewrite Hinv in Hk.
  pose proof (Z.div_mod r q ltac:(lia)) as Hr.
  pose proof (Z.div_mod (Z.invmod k q * (h - x * (r mod q))) q ltac:(lia)) as Ht.
  rewrite <- Hs in Ht.
  set (R := r / q) in *. set (rq := r mod q) in *.
  set (C := Z.invmod k q * k / q) in *.
  set (T := Z.invmod k q * (h - x * rq) / q) in *.
  set (ki := Z.invmod k q) in *.
  clearbody R rq C T ki.
  assert (E : k * (q * T + s) = (q * C + 1) * (h - x * rq))
    by (rewrite <- Ht, <- Hk; ring).
  rewrite Hr. ring_simplify in E. ring_simplify. lia.
Qed.

(** The verification equation holds for every pair built as [sign] does. *)
Lemma verification_equation p q g x h k r s :
  1 < p -> 2 <= q -> g ^ q mod p = 1 -> 0 <= x -> 0 <= h < q ->
  signed_with p g x q h k r s ->
  ((g ^ x mod p) ^ r mod p * (r ^ s mod p)) mod p = g ^ h mod p.
Proof.
  intros Hp Hq Hg Hx Hh (Hk & Hgcd & Hr & Hr0 & Hs & Hs0).
  assert (Hrb : 0 <= r < p) by (rewrite Hr; apply Z.mod_pos_bound; lia).
  assert (Hsb : 0 <= s < q) by (rewrite Hs; apply Z.mod_pos_bound; lia).
  assert (E1 : (g ^ x mod p) ^ r mod p = g ^ (x * r) mod p).
  { rewrite Z.mod_pow_l, <- Z.pow_mul_r by lia. reflexivity. }
  assert (E2 : r ^ s mod p = g ^ (k * s) mod p).
  { rewrite Hr at 1. rewrite Z.mod_pow_l, <- Z.pow_mul_r by lia. reflexivity. }
  rewrite E1, E2, <- Zmult_mod, <- Z.pow_add_r by nia.
  rewrite (pow_mod_order p q g (x * r + k * s)) by (auto; nia).
  now rewrite (exponent_congruence q x k h r s Hq Hgcd Hh Hs).
Qed.

Section Sign.

Variable sha256_digest : list byte -> list byte.
Variable entropy : nat -> Z.

Lemma sign_unfold fuel msg p g x q n :
  q <> 0 ->
  sign sha256_digest entropy fuel msg p g x q n
  = loop fuel
      (sign_body entropy p g x q
         (int_from_bytes_big (sha256_digest msg) mod q)) n.
Proof.
  intros Hq. unfold sign, hash_message. unfold bind at 1. unfold ret at 1.
  rewrite (bind_lift_ok _ _ _ _ (py_mod_ok _ q Hq)). reflexivity.
Qed.

(** What the body computes from the draw at position [n]. *)
Lemma sign_body_eq p g x q h n :
  4 < q -> p <> 0 ->
  let k := 2 + entropy n mod (q - 1 - 2) in
  let r := g ^ k mod p in
  let s := (Z.invmod k q * (h - x * (r mod q))) mod q in
  sign_body entropy p g x q h n
  = (Ok (if negb (Z.gcd k q =? 1) then None
         else if r =? 0 then None
         else if negb (s =? 0) then Some (r, s) else None), S n).
Proof.
  intros Hq Hp k r s. unfold sign_body.
  rewrite (bind_ok _ _ _ _ _ (randrange_ok entropy 2 (q - 1) n ltac:(lia))).
  pose proof (randrange_range entropy 2 (q - 1) n ltac:(lia)) as Hk.
  fold k in Hk |- *.
  destruct (Z.eqb_spec (Z.gcd k q) 1) as [Hg | _]; cbn [negb]; [| reflexivity].
  rewrite (bind_lift_ok _ _ _ _ (py_pow_ok g k p Hp ltac:(lia))). fold r.
  destruct (Z.eqb_spec r 0) as [_ | Hr]; [reflexivity |].
  rewrite (bind_lift_ok _ _ _ _ (py_pow_inverse k q ltac:(lia) Hg)).
  rewrite (bind_lift_ok _ _ _ _ (py_mod_ok r q ltac:(lia))).
  rewrite (bind_lift_ok _ _ _ _ (py_mod_ok _ q ltac:(lia))).
  reflexivity.
Qed.

Lemma sign_post fuel msg p g x q n :
  4 < q -> p <> 0 ->
  post (sign sha256_digest entropy fuel msg p g x q) n
    (fun sig _ =>
       exists k,
         signed_with p g x q
           (int_from_bytes_big (sha256_digest msg) mod q) k (fst sig) (snd sig)).
Proof.
  intros Hq Hp. unfold post. rewrite sign_unfold by lia.
  revert n. apply post_loop. intros n.
  eapply post_of_eq; [apply sign_body_eq; assumption |]. cbv zeta.
  pose proof (randrange_range entropy 2 (q - 1) n ltac:(lia)) as Hk.
  set (k := 2 + entropy n mod (q - 1 - 2)) in *.
  destruct (Z.eqb_spec (Z.gcd k q) 1) as [Hg | _]; cbn [negb]; [| exact I].
  destruct (Z.eqb_spec (g ^ k mod p) 0) as [_ | Hr]; [exact I |].
  match goal with |- context [negb (?s =? 0)] =>
    destruct (Z.eqb_spec s 0) as [_ | Hs] end; cbn [negb]; [exact I |].
  exists k. cbn [fst snd]. unfold signed_with. repeat split; auto; lia.
Qed.

(** When [q] divides both the private exponent and the digest, every [s]
    is zero and the loop of [sign] goes on for ever. *)
Lemma sign_never_returns fuel msg p g x q n :
  4 < q -> p <> 0 ->
  x mod q = 0 -> int_from_bytes_big (sha256_digest msg) mod q = 0 ->
  exists n',
    sign sha256_digest entropy fuel msg p g x q n = (OutOfFuel, n').
Proof.
  intros Hq Hp Hx Hh. rewrite sign_unfold by lia. rewrite Hh.
  apply loop_never. clear n. intros n. exists (S n).
  rewrite sign_body_eq by assumption.
  set (k := 2 + entropy n mod (q - 1 - 2)).
  set (rq := g ^ k mod p mod q).
  replace ((Z.invmod k q * (0 - x * rq)) mod q) with 0.
  - cbn [Z.eqb negb]. now repeat destruct (_ : bool).
  - symmetry. apply Z.mod_divide; [lia |].
    apply Z.mod_divide in Hx; [| lia]. destruct Hx as [c ->].
    exists (Z.invmod k q * (- c * rq)). ring.
Qed.

(** C3: for primes [q > 4] and [p = 2*q + 1], any [g] and any [x], [sign]
    raises nothing and every pair [(r, s)] it returns has [0 < r < p] and
    [0 < s < q]; in particular [s <> 0]. *)
Theorem sign_returns_pair_in_range :
  forall msg p g x q fuel n,
    Z.prime q -> 4 < q -> Z.prime p -> p = 2 * q + 1 ->
    post (sign sha256_digest entropy fuel msg p g x q) n
      (fun sig _ =>
         0 < fst sig < p /\ 0 < snd sig < q /\ snd sig <> 0).
Proof.
  intros msg p g x q fuel n _ Hq _ Hp.
  refine (post_weaken _ _ _ _ _ (sign_post fuel msg p g x q n Hq ltac:(lia))).
  intros [r s] n' (k & Hk & Hg & Hr & Hr0 & Hs & Hs0). cbn [fst snd] in *.
  pose proof (Z.mod_pos_bound (g ^ k) p ltac:(lia)).
  pose proof (Z.mod_pos_bound (Z.invmod k q * (int_from_bytes_big
    (sha256_digest msg) mod q - x * (r mod q))) q ltac:(lia)).
  lia.
Qed.

(** Among valid parameters the two defensive tests of the loop never
    fire: every [k] of [2 .. q-2] is coprime to the prime [q] and no power
    of [g] vanishes modulo the prime [p].  The draw at position [m] is
    rejected exactly when its [s] is zero. *)
Lemma sign_body_valid p g x q h m :
  Z.prime p -> Z.prime q -> 4 < q -> 1 < g < p ->
  sign_body entropy p g x q h m
  = (Ok (if ephemeral_s entropy p g x q h m =? 0 then None
         else Some (ephemeral_r entropy p g q m,
                    ephemeral_s entropy p g x q h m)), S m).
Proof.
  intros Hp Hq Hq4 Hg. pose proof (Z.prime_ge_2 _ Hp) as Hp2.
  rewrite sign_body_eq by lia.
  unfold ephemeral_s, ephemeral_r, ephemeral_k.
  pose proof (randrange_range entropy 2 (q - 1) m ltac:(lia)) as Hk.
  set (k := 2 + entropy m mod (q - 1 - 2)) in *.
  assert (Hgcd : Z.gcd k q = 1).
  { rewrite Z.gcd_comm. apply Z.coprime_prime_small; [exact Hq | lia]. }
  rewrite Hgcd. cbn [Z.eqb Pos.eqb negb].
  assert (Hr : g ^ k mod p <> 0).
  { intros E. apply Z.mod_divide in E; [| lia].
    assert (Hc : Z.coprime p (g ^ k)).
    { apply Z.coprime_pow_r; [lia |].
      apply Z.coprime_prime_small; [exact Hp | lia]. }
    unfold Z.coprime in Hc.
    assert (Hd : (p | Z.gcd p (g ^ k)))
      by (apply Z.gcd_greatest; [apply Z.divide_refl | exact E]).
    rewrite Hc in Hd. apply Z.divide_1_r_nonneg in Hd; lia. }
  destruct (Z.eqb_spec (g ^ k mod p) 0); [contradiction |].
  match goal with |- context [negb (?s =? 0)] => destruct (s =? 0) end;
    reflexivity.
Qed.

(** C1, as amended: for primes [q > 4] and [p = 2*q + 1], [g] with
    [1 < g < p] and [g^q mod p = 1], a private exponent [2 <= x <= p - 3]
    and [y = g^x mod p], [sign] raises nothing and [verify] answers [True]
    on every signature that [sign] returns.  [sign] returns exactly at the
    first drawn [k] whose [s] is not zero: when the draws at positions
    [n .. n+j-1] all give [s = 0] and the draw at [n+j] does not, [sign]
    returns the pair of that draw after [j + 1] draws, and [verify] accepts
    it; while every draw gives [s = 0], [sign] is still running. *)
Theorem sign_then_verify :
  forall msg p g x y q,
    Z.prime p -> Z.prime q -> p = 2 * q + 1 -> 4 < q ->
    1 < g < p -> g ^ q mod p = 1 ->
    2 <= x <= p - 3 -> y = g ^ x mod p ->
    let h := int_from_bytes_big (sha256_digest msg) mod q in
    (forall fuel n,
        post (sign sha256_digest entropy fuel msg p g x q) n
          (fun sig n' =>
             verify sha256_digest msg sig p g y q n' = (Ok true, n'))) /\
    (forall fuel n j,
        (forall i, (i < j)%nat ->
                   ephemeral_s entropy p g x q h (n + i) = 0) ->
        ephemeral_s entropy p g x q h (n + j) <> 0 ->
        (j < fuel)%nat ->
        sign sha256_digest entropy fuel msg p g x q n
        = (Ok (ephemeral_r entropy p g q (n + j),
               ephemeral_s entropy p g x q h (n + j)), S (n + j)) /\
        verify sha256_digest msg
          (ephemeral_r entropy p g q (n + j),
           ephemeral_s entropy p g x q h (n + j)) p g y q (S (n + j))
        = (Ok true, S (n + j))) /\
    (forall fuel n,
        (forall i, (i < fuel)%nat ->
                   ephemeral_s entropy p g x q h (n + i) = 0) ->
        sign sha256_digest entropy fuel msg p g x q n
        = (OutOfFuel, (n + fuel)%nat)).
Proof.
  intros msg p g x y q Hp Hq Hpq Hq4 Hg Hgq Hx Hy h.
  assert (Hverify : forall fuel n,
    post (sign sha256_digest entropy fuel msg p g x q) n
      (fun sig n' =>
         verify sha256_digest msg sig p g y q n' = (Ok true, n'))).
  { intros fuel n.
    refine (post_weaken _ _ _ _ _ (sign_post fuel msg p g x q n Hq4 ltac:(lia))).
    intros [r s] n' (k & Hk). cbn [fst snd] in Hk.
    pose proof Hk as (Hk2 & Hgcd & Hr & Hr0 & Hs & Hs0).
    pose proof (Z.mod_pos_bound (g ^ k) p ltac:(lia)).
    pose proof (Z.mod_pos_bound (Z.invmod k q * (int_from_bytes_big
      (sha256_digest msg) mod q - x * (r mod q))) q ltac:(lia)).
    rewrite verify_in_range by lia. do 2 f_equal.
    apply Z.eqb_eq. rewrite Hy.
    apply (verification_equation p q g x _ k r s); auto; try lia.
    apply Z.mod_pos_bound. lia. }
  split; [exact Hverify |]. split.
  - intros fuel n j Hrej Hacc Hfuel.
    assert (Hsign : sign sha256_digest entropy fuel msg p g x q n
                    = (Ok (ephemeral_r entropy p g q (n + j),
                           ephemeral_s entropy p g x q h (n + j)), S (n + j))).
    { rewrite sign_unfold by lia. fold h.
      apply (loop_first_accepted _ j); [| | exact Hfuel].
      - intros i Hi. rewrite sign_body_valid by assumption.
        now rewrite (Hrej i Hi).
      - rewrite sign_body_valid by assumption.
        destruct (Z.eqb_spec (ephemeral_s entropy p g x q h (n + j)) 0);
          [contradiction | reflexivity]. }
    split; [exact Hsign |].
    exact (post_returns _ _ _ _ _ (Hverify fuel n) Hsign).
  - intros fuel n Hrej.
    rewrite sign_unfold by lia. fold h.
    apply loop_all_rejected. intros i Hi.
    rewrite sign_body_valid by assumption. now rewrite (Hrej i Hi).
Qed.

End Sign.

(** ** Runs of the model on concrete parameters *)

(** Trial division by every number of [2 .. p-1] decides primality. *)
Lemma prime_by_trial p :
  1 < p ->
  forallb (fun i => negb (p mod (2 + Z.of_nat i) =? 0))
    (seq 0 (Z.to_nat (p - 2))) = true ->
  Z.prime p.
Proof.
  intros Hp Hall. split; [exact Hp |]. intros n Hn Hd.
  rewrite forallb_forall in Hall.
  specialize (Hall (Z.to_nat (n - 2))).
  rewrite in_seq in Hall.
  replace (2 + Z.of_nat (Z.to_nat (n - 2))) with n in Hall by lia.
  apply Z.mod_divide in Hd; [| lia]. rewrite Hd in Hall.
  specialize (Hall ltac:(lia)). discriminate.
Qed.

(** For [q = 3] the range [2 .. q-2] of the ephemeral exponent is empty:
    [sign] raises [ValueError] at its first draw, whatever the tape, the
    digest, the message, the key and the modulus. *)
Lemma sign_empty_range (sha256_digest : list byte -> list byte)
      (entropy : nat -> Z) fuel msg p g x n :
  sign sha256_digest entropy (S fuel) msg p g x 3 n = (Raise ValueError, n).
Proof. reflexivity. Qed.

(** [q_bits = 2] leaves one candidate, [3], and [2*3 + 1 = 7] is prime:
    the generation always ends with the pair [(7, 3)]. *)
Lemma generate_p_q_two_bits (entropy : nat -> Z) fuel n :
  generate_p_q entropy (S fuel) 2 n = (Ok (7, 3), S n).
Proof.
  unfold generate_p_q. apply loop_first.
  assert (Hq : generate_prime entropy (S fuel) 2 n = (Ok 3, S n)).
  { unfold generate_prime. apply loop_first.
    rewrite (bind_ok _ _ _ _ _ (generate_prime_candidate_ok entropy 2 n ltac:(lia))).
    assert (Hc : Z.lor (entropy n mod 2 ^ 2) (Z.lor (2 ^ (2 - 1)) 1) = 3).
    { pose proof (Z.mod_pos_bound (entropy n) (2 ^ 2) ltac:(lia)) as Hb.
      change (2 ^ 2) with 4 in *.
      assert (Hcases : entropy n mod 4 = 0 \/ entropy n mod 4 = 1 \/
                       entropy n mod 4 = 2 \/ entropy n mod 4 = 3) by lia.
      destruct Hcases as [-> | [-> | [-> | ->]]]; reflexivity. }
    rewrite Hc. reflexivity. }
  rewrite (bind_ok _ _ _ _ _ Hq). reflexivity.
Qed.

(** C1, counterexample: the pipeline run with [q_bits = 2] produces
    [p = 7], [q = 3]; with the generator [g = 2] of order 3 and the keypair
    [x = 2], [y = 4] the call of [sign] raises [ValueError], and so does the
    whole pipeline: no signature reaches [verify]. *)
Lemma sign_raises_for_q_3 :
  generate_p_q sample_entropy 10 2 0%nat = (Ok (7, 3), 1%nat) /\
  Z.prime 7 /\ Z.prime 3 /\ 7 = 2 * 3 + 1 /\
  1 < 2 < 7 /\ 2 ^ 3 mod 7 = 1 /\ 2 <= 2 <= 7 - 3 /\ 4 = 2 ^ 2 mod 7 /\
  sign sample_digest sample_entropy 10 msg_test 7 2 2 3 0%nat
  = (Raise ValueError, 0%nat) /\
  pipeline sample_digest sample_entropy 10 2 msg_test 0%nat
  = (Raise ValueError, 3%nat).
Proof.
  split; [apply generate_p_q_two_bits |].
  split; [apply prime_by_trial; [lia | reflexivity] |].
  split; [exact Z.prime_3 |].
  repeat split; try lia; vm_compute; reflexivity.
Qed.

(** The runs below instantiate the theorems above on the sample tape, with
    the parameters [p = 23], [q = 11], [g = 2] of order 11.  For the
    keypair [x = 7], [y = 2^7 mod 23 = 13] the first two draws give
    [s = 0] and the third is accepted; the other runs use [x = 5],
    [y = 9]. *)
Lemma sign_then_verify_witness :
  exists sig,
    sign sample_digest sample_entropy 20 msg_test 23 2 7 11 0%nat
    = (Ok sig, 3%nat) /\
    verify sample_digest msg_test sig 23 2 13 11 3%nat = (Ok true, 3%nat).
Proof.
  assert (H23 : Z.prime 23)
    by (apply prime_by_trial; [lia | vm_compute; reflexivity]).
  assert (H11 : Z.prime 11)
    by (apply prime_by_trial; [lia | vm_compute; reflexivity]).
  eexists.
  apply (proj1 (proj2 (sign_then_verify sample_digest sample_entropy
                         msg_test 23 2 7 13 11 H23 H11 eq_refl
                         ltac:(lia) ltac:(lia) eq_refl ltac:(lia) eq_refl))
           20%nat 0%nat 2%nat).
  - intros i Hi. destruct i as [| [| i]];
      [vm_compute; reflexivity | vm_compute; reflexivity | lia].
  - vm_compute; discriminate.
  - lia.
Defined.

Lemma verify_rejects_out_of_range_witness :
  verify sample_digest msg_test (0, 1) 23 2 9 11 0%nat = (Ok false, 0%nat).
Proof.
  apply (proj2 (verify_total_and_rejects_out_of_range
                  sample_digest msg_test 0 1 23 2 9 11 0%nat)).
  left. lia.
Defined.

Lemma sign_returns_pair_in_range_witness :
  exists sig n',
    sign sample_digest sample_entropy 20 msg_test 23 2 5 11 0%nat = (Ok sig, n') /\
    0 < fst sig < 23 /\ 0 < snd sig < 11 /\ snd sig <> 0.
Proof.
  exists (13, 10), 1%nat. split; [vm_compute; reflexivity |].
  refine (post_returns _ _ _ _ _
            (sign_returns_pair_in_range sample_digest sample_entropy
               msg_test 23 2 5 11 20%nat 0%nat _ _ _ _) _).
  - apply prime_by_trial; [lia | vm_compute; reflexivity].
  - lia.
  - apply prime_by_trial; [lia | vm_compute; reflexivity].
  - reflexivity.
  - vm_compute; reflexivity.
Defined.

Lemma find_generator_order_divides_q_witness :
  exists g n',
    find_generator sample_entropy 20 23 11 0%nat = (Ok g, n') /\
    1 < g < 23 /\ py_pow g 11 23 = Ok 1.
Proof.
  exists 18, 1%nat. split; [vm_compute; reflexivity |].
  refine (post_returns _ _ _ _ _
            (find_generator_order_divides_q sample_entropy
               23 11 20%nat 0%nat _ _ _ _) _).
  - apply prime_by_trial; [lia | vm_compute; reflexivity].
  - lia.
  - apply prime_by_trial; [lia | vm_compute; reflexivity].
  - exists 2. reflexivity.
  - vm_compute; reflexivity.
Defined.

Lemma generate_p_q_returns_tested_pair_witness :
  exists pq n',
    generate_p_q sample_entropy 200 8 0%nat = (Ok pq, n') /\
    fst pq = 2 * snd pq + 1 /\
    (exists i j, is_prime sample_entropy (snd pq) 40 i = (Ok true, j)) /\
    (exists i, is_prime sample_entropy (fst pq) 40 i = (Ok true, n')).
Proof.
  exists (263, 131), 123%nat. split; [vm_compute; reflexivity |].
  refine (post_returns _ _ _ _ _
            (generate_p_q_returns_tested_pair sample_entropy
               8 200%nat 0%nat _) _).
  - lia.
  - vm_compute; reflexivity.
Defined.

Lemma is_prime_total_and_known_values_witness :
  is_prime sample_entropy 1 40 0%nat = (Ok false, 0%nat).
Proof.
  apply (proj1 (proj2 (is_prime_total_and_known_values
                         sample_entropy 1 40 0%nat))).
  lia.
Defined.

Lemma generate_keys_in_range_witness :
  exists x,
    generate_keys sample_entropy 23 2 0%nat = (Ok (x, 2 ^ x mod 23), 1%nat) /\
    2 <= x <= 23 - 3.
Proof.
  apply (generate_keys_in_range sample_entropy 23 2 0%nat). lia.
Defined.

Lemma candidates_are_odd_of_exact_bit_length_witness :
  exists c,
    generate_prime_candidate sample_entropy 8 0%nat = (Ok c, 1%nat) /\
    Z.odd c = true /\ bit_length c = 8 /\
    Z.testbit c (8 - 1) = true /\ Z.testbit c 0 = true.
Proof.
  apply (proj1 (candidates_are_odd_of_exact_bit_length sample_entropy 8
                  ltac:(lia)) 0%nat).
Defined.

Lemma is_prime_no_false_negative_witness :
  exists pos', is_prime sample_entropy 101 40 0%nat = (Ok true, pos').
Proof.
  apply (is_prime_no_false_negative sample_entropy 101 40 0%nat).
  - apply prime_by_trial; [lia | vm_compute; reflexivity].
  - lia.
  - lia.
Defined.

(** ** Further properties of the primality test *)

Lemma small_primes_check_divisible n p ps :
  ~ In n ps -> In p ps -> n mod p = 0 ->
  small_primes_check n ps = Some false.
Proof.
  induction ps as [| p' ps IH]; intros Hn Hp Hd; [destruct Hp |].
  cbn [small_primes_check].
  destruct (Z.eqb_spec n p') as [-> | _]; [exfalso; apply Hn; now left |].
  destruct (Z.eqb_spec (n mod p') 0) as [_ | Hne]; [reflexivity |].
  destruct Hp as [-> | Hp]; [contradiction |].
  apply IH; auto. intros Hin. apply Hn. now right.
Qed.

Lemma small_primes_check_accepts n ps :
  small_primes_check n ps = Some true -> In n ps.
Proof.
  induction ps as [| p ps IH]; cbn [small_primes_check]; [discriminate |].
  destruct (Z.eqb_spec n p) as [-> | _]; [now left |].
  destruct (n mod p =? 0); [discriminate |]. intros E. right. now apply IH.
Qed.

Lemma small_primes_check_passes n ps :
  (forall p, In p ps -> n mod p <> 0) -> small_primes_check n ps = None.
Proof.
  induction ps as [| p ps IH]; intros Hall; [reflexivity |].
  cbn [small_primes_check].
  destruct (Z.eqb_spec n p) as [-> | _].
  - exfalso. apply (Hall p); [now left | apply Z_mod_same_full].
  - destruct (Z.eqb_spec (n mod p) 0) as [E | _].
    + exfalso. apply (Hall p); [now left | exact E].
    + apply IH. intros p' Hp'. apply Hall. now right.
Qed.

Lemma small_primes_bound n : In n small_primes -> 2 <= n <= 23.
Proof.
  unfold small_primes. cbn [In]. intros H.
  repeat (destruct H as [<- | H]; [lia |]). destruct H.
Qed.

Section PrimalityExtras.

Variable entropy : nat -> Z.

(** X1: a number that has one of the nine small primes as a proper factor
    is rejected by the trial divisions alone: [is_prime] answers [False]
    for every round count and draws no witness. *)
Theorem is_prime_rejects_multiple_of_small_prime :
  forall n k pos p,
    In p small_primes -> (p | n) -> ~ In n small_primes ->
    is_prime entropy n k pos = (Ok false, pos).
Proof.
  intros n k pos p Hp Hd Hn. unfold is_prime.
  destruct (Z.ltb_spec n 2); [reflexivity |].
  rewrite (small_primes_check_divisible n p small_primes Hn Hp); [reflexivity |].
  apply Z.mod_divide; [| exact Hd].
  pose proof (small_primes_bound p Hp). lia.
Qed.

(** X2: the round count is not checked.  With [k <= 0] the witness loop has
    no iteration, so every [n >= 2] without a factor among the nine small
    primes is answered [True], prime or not, and nothing is drawn. *)
Theorem is_prime_without_rounds_accepts :
  forall n k pos,
    k <= 0 -> 2 <= n ->
    (forall p, In p small_primes -> n mod p <> 0) ->
    is_prime entropy n k pos = (Ok true, pos).
Proof.
  intros n k pos Hk Hn Hall. unfold is_prime.
  destruct (Z.ltb_spec n 2); [lia |].
  rewrite (small_primes_check_passes n small_primes Hall).
  destruct (factor_twos_pos (n - 1) ltac:(lia)) as (r & d & Hf & _).
  rewrite (bind_lift_ok _ _ _ _ Hf).
  replace (Z.to_nat k) with 0%nat by lia. reflexivity.
Qed.

Lemma witness_loop_draws n r d :
  3 < n -> 0 <= d ->
  forall rounds pos,
  exists b pos',
    witness_loop entropy rounds n r d pos = (Ok b, pos') /\
    (pos <= pos' <= pos + rounds)%nat /\
    (b = true -> pos' = (pos + rounds)%nat).
Proof.
  intros Hn Hd rounds. induction rounds as [| rounds IH]; intros pos.
  - exists true, pos. repeat split; lia.
  - cbn [witness_loop].
    rewrite (bind_ok _ _ _ _ _ (randrange_ok entropy 2 (n - 1) pos ltac:(lia))).
    rewrite (bind_lift_ok _ _ _ _ (py_pow_ok _ d n ltac:(lia) Hd)).
    destruct (IH (S pos)) as (b & pos' & E & Hb & Ht).
    match goal with |- context [if ?c then _ else _] => destruct c end.
    { exists b, pos'. repeat split; [exact E | lia | lia | intros Hb'; specialize (Ht Hb'); lia]. }
    match goal with |- context [square_loop ?m n ?x] =>
      destruct (square_loop_total m n x ltac:(lia)) as [f Hf] end.
    rewrite (bind_ok _ _ _ _ _ (Hf _)). destruct f.
    + exists b, pos'. repeat split; [exact E | lia | lia | intros Hb'; specialize (Ht Hb'); lia].
    + exists false, (S pos). repeat split; [lia | lia | discriminate].
Qed.

(** X3: [is_prime(n, k)] draws at most [k] random witnesses, and an answer
    [True] on a number above 23 has cost exactly [k] draws: such a number
    is never accepted before all its rounds have passed. *)
Theorem is_prime_draws_at_most_k :
  forall n k pos,
  exists b pos',
    is_prime entropy n k pos = (Ok b, pos') /\
    (pos <= pos' <= pos + Z.to_nat k)%nat /\
    (b = true -> 23 < n -> pos' = (pos + Z.to_nat k)%nat).
Proof.
  intros n k pos. unfold is_prime.
  destruct (Z.ltb_spec n 2) as [Hlt | Hge].
  { exists false, pos. repeat split; [lia | lia | discriminate]. }
  destruct (small_primes_check n small_primes) as [b |] eqn:E.
  - exists b, pos. repeat split; [lia | lia |].
    intros -> Hn. apply small_primes_check_accepts, small_primes_bound in E. lia.
  - destruct (small_primes_check_none n E) as (N2 & N3 & _).
    destruct (factor_twos_pos (n - 1) ltac:(lia)) as (r & d & Hf & _ & Hd & _).
    rewrite (bind_lift_ok _ _ _ _ Hf).
    destruct (witness_loop_draws n r d ltac:(lia) ltac:(lia) (Z.to_nat k) pos)
      as (b & pos' & Hw & Hb & Ht).
    exists b, pos'. repeat split; auto; lia.
Qed.

End PrimalityExtras.

Lemma is_prime_rejects_multiple_of_small_prime_witness :
  is_prime sample_entropy 8911 40 0%nat = (Ok false, 0%nat).
Proof.
  apply (is_prime_rejects_multiple_of_small_prime sample_entropy 8911 40 0%nat 7).
  - unfold small_primes. cbn [In]. tauto.
  - exists 1273. reflexivity.
  - intros H. apply small_primes_bound in H. lia.
Defined.

Lemma is_prime_without_rounds_accepts_witness :
  899 = 29 * 31 /\ is_prime sample_entropy 899 0 0%nat = (Ok true, 0%nat).
Proof.
  split; [reflexivity |].
  apply (is_prime_without_rounds_accepts sample_entropy 899 0 0%nat).
  - lia.
  - lia.
  - unfold small_primes. cbn [In]. intros p H.
    repeat (destruct H as [<- | H]; [vm_compute; discriminate |]). destruct H.
Defined.

(** ** Further properties of the generators *)

Lemma bit_length_range c b :
  0 < c -> bit_length c = b -> 2 ^ (b - 1) <= c < 2 ^ b.
Proof.
  intros Hc <-. unfold bit_length.
  destruct (Z.eqb_spec c 0); [lia |]. rewrite Z.abs_eq by lia.
  pose proof (Z.log2_spec c Hc) as Hs.
  replace (Z.log2 c + 1 - 1) with (Z.log2 c) by lia.
  replace (Z.log2 c + 1) with (Z.succ (Z.log2 c)) by lia. exact Hs.
Qed.

Lemma bit_length_of_range c b :
  1 <= b -> 2 ^ (b - 1) <= c < 2 ^ b -> bit_length c = b.
Proof.
  intros Hb Hc.
  assert (0 < 2 ^ (b - 1)) by (apply Z.pow_pos_nonneg; lia).
  unfold bit_length. destruct (Z.eqb_spec c 0); [lia |].
  rewrite Z.abs_eq by lia.
  rewrite (Z.log2_unique c (b - 1)); [lia | lia |].
  replace (Z.succ (b - 1)) with b by lia. exact Hc.
Qed.

(** An element other than 1 whose [q]-th power is 1, for a prime [q], has
    no smaller positive exponent with that property. *)
Lemma order_exact p q g j :
  Z.prime q -> 1 < g < p -> g ^ q mod p = 1 -> 0 < j < q ->
  g ^ j mod p <> 1.
Proof.
  intros Hq Hg Hgq Hj E. pose proof (Z.prime_ge_2 _ Hq) as Hq2.
  assert (Hc : Z.coprime j q).
  { unfold Z.coprime. rewrite Z.gcd_comm.
    apply Z.coprime_prime_small; [exact Hq | lia]. }
  pose proof (Z.invmod_coprime j q Hq2 Hc) as Hinv.
  assert (Hi : 0 <= Z.invmod j q).
  { rewrite <- Z.mod_invmod. apply Z.mod_pos_bound. lia. }
  assert (E1 : g ^ (Z.invmod j q * j) mod p = g).
  { rewrite (pow_mod_order p q g) by (auto; nia).
    rewrite Hinv, Z.pow_1_r. apply Z.mod_small. lia. }
  assert (E2 : g ^ (Z.invmod j q * j) mod p = 1).
  { rewrite Z.mul_comm, Z.pow_mul_r by lia.
    rewrite <- Z.mod_pow_l, E, Z.pow_1_l by lia. apply Z.mod_small. lia. }
  lia.
Qed.

Section GenerationExtras.

Variable entropy : nat -> Z.

Lemma find_generator_post p q fuel n :
  Z.prime p -> 3 < p -> 0 < q -> (q | p - 1) ->
  post (find_generator entropy fuel p q) n
    (fun g _ => 1 < g < p /\ g ^ q mod p = 1).
Proof.
  intros Hp Hp3 Hq [c Hc]. revert n.
  assert (Hc0 : 0 <= c) by nia.
  unfold find_generator. apply post_loop. intros n.
  apply post_bind.
  apply (post_of_eq _ _ _ _ _ (randrange_ok entropy 2 (p - 1) n ltac:(lia))).
  pose proof (randrange_range entropy 2 (p - 1) n ltac:(lia)) as Hh.
  set (h := 2 + entropy n mod (p - 1 - 2)) in *.
  apply (post_bind_lift _ _ _ c).
  { unfold py_floordiv. destruct (Z.eqb_spec q 0); [lia |].
    now rewrite Hc, Z.div_mul by lia. }
  apply (post_bind_lift _ _ _ _ _ (py_pow_ok h c p ltac:(lia) Hc0)).
  apply post_ret. destruct (Z.ltb_spec 1 (h ^ c mod p)) as [Hg | _]; [| exact I].
  pose proof (Z.mod_pos_bound (h ^ c) p ltac:(lia)).
  split; [lia |].
  rewrite Z.mod_pow_l, <- Z.pow_mul_r, <- Hc by lia.
  apply Zmod.ZmodInv.Z.fermat_nz; [exact Hp |].
  rewrite Z.mod_small; lia.
Qed.

(** X4: for a prime [p > 3] and a prime [q] dividing [p - 1], every [g]
    that [find_generator] returns has order exactly [q]: no exponent [j]
    with [0 < j < q] gives [g^j mod p = 1], so the powers of [g] are the
    whole subgroup of order [q] announced by the docstring. *)
Theorem find_generator_exact_order :
  forall p q fuel n,
    Z.prime p -> 3 < p -> Z.prime q -> (q | p - 1) ->
    post (find_generator entropy fuel p q) n
      (fun g _ => forall j, 0 < j < q -> g ^ j mod p <> 1).
Proof.
  intros p q fuel n Hp Hp3 Hq Hd.
  pose proof (Z.prime_ge_2 _ Hq).
  refine (post_weaken _ _ _ _ _
            (find_generator_post p q fuel n Hp Hp3 ltac:(lia) Hd)).
  intros g _ [Hg Hgq] j Hj. now apply (order_exact p q g j).
Qed.

(** On a safe prime the first draw is always accepted: [h^2 mod p] is
    neither 0 nor 1 for [h] in [2 .. p-2]. *)
Lemma find_generator_first_draw p q fuel n :
  Z.prime p -> p = 2 * q + 1 -> 3 < p ->
  find_generator entropy (S fuel) p q n
  = (Ok ((2 + entropy n mod (p - 1 - 2)) ^ 2 mod p), S n).
Proof.
  intros Hp Hpq Hp3. unfold find_generator. apply loop_first.
  rewrite (bind_ok _ _ _ _ _ (randrange_ok entropy 2 (p - 1) n ltac:(lia))).
  pose proof (randrange_range entropy 2 (p - 1) n ltac:(lia)) as Hh.
  set (h := 2 + entropy n mod (p - 1 - 2)) in *.
  assert (He : py_floordiv (p - 1) q = Ok 2).
  { unfold py_floordiv. destruct (Z.eqb_spec q 0); [lia |].
    f_equal. replace (p - 1) with (2 * q) by lia. apply Z.div_mul. lia. }
  rewrite (bind_lift_ok _ _ _ _ He).
  rewrite (bind_lift_ok _ _ _ _ (py_pow_ok h 2 p ltac:(lia) ltac:(lia))).
  pose proof (Z.mod_pos_bound (h ^ 2) p ltac:(lia)) as Hb.
  assert (N0 : h ^ 2 mod p <> 0).
  { intros E. apply Z.mod_divide in E; [| lia]. rewrite Z.pow_2_r in E.
    apply (Z.divide_prime_mul _ _ _ Hp) in E.
    assert (Hd : (p | h)) by tauto.
    apply Z.divide_pos_le in Hd; lia. }
  assert (N1 : h ^ 2 mod p <> 1).
  { intros E. rewrite Z.pow_2_r in E.
    destruct (sqrt_one_mod_prime p h Hp ltac:(lia) E); lia. }
  destruct (Z.ltb_spec 1 (h ^ 2 mod p)); [reflexivity | lia].
Qed.

(** X5: on a safe prime [p = 2*q + 1 > 3], [find_generator] never retries:
    it returns [h^2 mod p] for the first [h] it draws. *)
Theorem find_generator_never_retries_on_safe_prime :
  forall p q fuel n,
    Z.prime p -> p = 2 * q + 1 -> 3 < p ->
    exists h,
      2 <= h <= p - 2 /\
      find_generator entropy (S fuel) p q n = (Ok (h ^ 2 mod p), S n).
Proof.
  intros p q fuel n Hp Hpq Hp3. exists (2 + entropy n mod (p - 1 - 2)).
  pose proof (randrange_range entropy 2 (p - 1) n ltac:(lia)).
  split; [lia | now apply find_generator_first_draw].
Qed.

(** X6: [find_generator] fails on degenerate parameters: for [p <= 3] the
    range of [h] is empty and [ValueError] is raised before any draw; for
    [p > 3] and [q = 0] the division [(p - 1) // q] raises
    [ZeroDivisionError] after the first draw. *)
Theorem find_generator_errors :
  forall p q fuel n,
    (p <= 3 ->
     find_generator entropy (S fuel) p q n = (Raise ValueError, n)) /\
    (3 < p -> q = 0 ->
     find_generator entropy (S fuel) p q n = (Raise ZeroDivisionError, S n)).
Proof.
  intros p q fuel n. split.
  - intros Hp. unfold find_generator. cbn [loop].
    unfold bind at 1. unfold bind at 1. unfold randrange. cbv zeta.
    destruct (Z.ltb_spec 0 (p - 1 - 2)); [lia | reflexivity].
  - intros Hp ->. unfold find_generator. cbn [loop].
    unfold bind at 1.
    rewrite (bind_ok _ _ _ _ _ (randrange_ok entropy 2 (p - 1) n ltac:(lia))).
    reflexivity.
Qed.

Lemma generate_keys_ok p g n :
  4 < p ->
  generate_keys entropy p g n
  = (Ok (2 + entropy n mod (p - 2 - 2),
         g ^ (2 + entropy n mod (p - 2 - 2)) mod p), S n).
Proof.
  intros Hp.
  pose proof (randrange_range entropy 2 (p - 2) n ltac:(lia)) as Hx.
  assert (Hx0 : 0 <= 2 + entropy n mod (p - 2 - 2)) by lia.
  unfold generate_keys.
  rewrite (bind_ok _ _ _ _ _ (randrange_ok entropy 2 (p - 2) n ltac:(lia))).
  rewrite (bind_lift_ok _ _ _ _ (py_pow_ok g _ p ltac:(lia) Hx0)).
  reflexivity.
Qed.

(** X7: [generate_keys] raises exactly when [p <= 4]: the range
    [2 .. p-3] of the private exponent is then empty and [ValueError] is
    raised before any draw; for [p > 4] nothing is raised, whatever [g]. *)
Theorem generate_keys_raises_iff :
  forall p g n,
    (p <= 4 -> generate_keys entropy p g n = (Raise ValueError, n)) /\
    (4 < p -> forall e n', generate_keys entropy p g n <> (Raise e, n')).
Proof.
  intros p g n. split.
  - intros Hp. unfold generate_keys, bind, randrange. cbv zeta.
    destruct (Z.ltb_spec 0 (p - 2 - 2)); [lia | reflexivity].
  - intros Hp e n'. rewrite generate_keys_ok by lia. discriminate.
Qed.

Lemma generate_prime_one_bit fuel n :
  generate_prime entropy fuel 1 n = (OutOfFuel, (n + fuel)%nat).
Proof.
  unfold generate_prime. revert n.
  induction fuel as [| fuel IH]; intros n.
  - cbn [loop]. now rewrite Nat.add_0_r.
  - cbn [loop]. unfold bind at 1.
    rewrite (bind_ok _ _ _ _ _ (generate_prime_candidate_ok entropy 1 n ltac:(lia))).
    assert (Hc : Z.lor (entropy n mod 2 ^ 1) (Z.lor (2 ^ (1 - 1)) 1) = 1).
    { pose proof (Z.mod_pos_bound (entropy n) (2 ^ 1) ltac:(lia)) as Hb.
      change (2 ^ 1) with 2 in *.
      assert (Hcases : entropy n mod 2 = 0 \/ entropy n mod 2 = 1) by lia.
      destruct Hcases as [-> | ->]; reflexivity. }
    rewrite Hc. cbn [is_prime Z.ltb Z.compare Pos.compare Pos.compare_cont].
    unfold bind at 1, ret at 1. unfold ret at 1.
    rewrite IH. f_equal. lia.
Qed.

Lemma generate_prime_no_bits fuel bits n :
  bits <= 0 ->
  exists n', generate_prime entropy (S fuel) bits n = (Raise ValueError, n').
Proof.
  intros Hb. unfold generate_prime. cbn [loop].
  unfold generate_prime_candidate, getrandbits, py_shiftl, bind, lift.
  destruct (Z.ltb_spec bits 0); [eexists; reflexivity |].
  destruct (Z.ltb_spec (bits - 1) 0); [eexists; reflexivity | lia].
Qed.

(** X8: [generate_prime] needs at least two bits.  For [bits <= 0] building
    the candidate raises [ValueError] (a negative bit count, or the shift
    [1 << -1]); for [bits = 1] the only candidate is 1, which [is_prime]
    rejects, so the loop draws for ever and never returns. *)
Theorem generate_prime_needs_two_bits :
  forall bits fuel n,
    (bits <= 0 ->
     exists n',
       generate_prime entropy (S fuel) bits n = (Raise ValueError, n')) /\
    (bits = 1 ->
     generate_prime entropy fuel bits n = (OutOfFuel, (n + fuel)%nat)).
Proof.
  intros bits fuel n. split.
  - apply generate_prime_no_bits.
  - intros ->. apply generate_prime_one_bit.
Qed.

Lemma candidate_positive bits e :
  1 <= bits -> 0 < Z.lor (e mod 2 ^ bits) (Z.lor (2 ^ (bits - 1)) 1).
Proof.
  intros Hb.
  destruct (candidate_shape bits e Hb) as (Ho & _). cbv zeta in Ho.
  assert (He : 0 <= e mod 2 ^ bits)
    by (apply Z.mod_pos_bound, Z.pow_pos_nonneg; lia).
  assert (Ht : 0 < 2 ^ (bits - 1)) by (apply Z.pow_pos_nonneg; lia).
  assert (Hc0 : 0 <= Z.lor (e mod 2 ^ bits) (Z.lor (2 ^ (bits - 1)) 1))
    by (rewrite !Z.lor_nonneg; lia).
  destruct (Z.eq_dec (Z.lor (e mod 2 ^ bits) (Z.lor (2 ^ (bits - 1)) 1)) 0)
    as [E | ]; [| lia].
  rewrite E in Ho. discriminate.
Qed.

Lemma generate_prime_range fuel bits n :
  1 <= bits ->
  post (generate_prime entropy fuel bits) n
    (fun q _ => Z.odd q = true /\ 2 ^ (bits - 1) <= q < 2 ^ bits).
Proof.
  intros Hb. revert n. unfold generate_prime. apply post_loop. intros n.
  apply post_bind.
  apply (post_of_eq _ _ _ _ _ (generate_prime_candidate_ok entropy bits n Hb)).
  apply post_bind. apply is_prime_post. intros [|] pos' E; apply post_ret.
  - destruct (candidate_shape bits (entropy n) Hb) as (Ho & Hl & _).
    split; [exact Ho |].
    apply bit_length_range; [apply candidate_positive; exact Hb | exact Hl].
  - exact I.
Qed.

Lemma generate_p_q_post fuel q_bits n :
  1 <= q_bits ->
  post (generate_p_q entropy fuel q_bits) n
    (fun pq _ =>
       fst pq = 2 * snd pq + 1 /\ Z.odd (snd pq) = true /\
       2 ^ (q_bits - 1) <= snd pq < 2 ^ q_bits).
Proof.
  intros Hb. revert n. unfold generate_p_q.
  apply post_loop. intros n. apply post_bind.
  refine (post_weaken _ _ _ _ _ (generate_prime_range fuel q_bits n Hb)).
  intros q n1 (Ho & Hr). cbv zeta.
  apply post_bind. apply is_prime_post. intros [|] n2 E; apply post_ret.
  - cbn [fst snd]. auto.
  - exact I.
Qed.

(** X9: the sizes of the returned parameters.  For [q_bits >= 1], every
    pair [(p, q)] returned by [generate_p_q] has an odd [q] of bit-length
    exactly [q_bits] and a [p] of bit-length exactly [q_bits + 1] with
    [p mod 4 = 3]. *)
Theorem generate_p_q_sizes :
  forall q_bits fuel n,
    1 <= q_bits ->
    post (generate_p_q entropy fuel q_bits) n
      (fun pq _ =>
         Z.odd (snd pq) = true /\ bit_length (snd pq) = q_bits /\
         bit_length (fst pq) = q_bits + 1 /\ fst pq mod 4 = 3).
Proof.
  intros q_bits fuel n Hb.
  refine (post_weaken _ _ _ _ _ (generate_p_q_post fuel q_bits n Hb)).
  intros [p q] _. cbn [fst snd]. intros (Hp & Ho & Hr).
  assert (Hpow : 2 ^ q_bits = 2 * 2 ^ (q_bits - 1)).
  { replace q_bits with (Z.succ (q_bits - 1)) at 1 by lia.
    apply Z.pow_succ_r. lia. }
  assert (Hpow' : 2 ^ (q_bits + 1) = 2 * 2 ^ q_bits)
    by (apply Z.pow_succ_r; lia).
  repeat split.
  - exact Ho.
  - apply bit_length_of_range; [lia | exact Hr].
  - apply bit_length_of_range; [lia |].
    replace (q_bits + 1 - 1) with q_bits by lia. lia.
  - apply Z.odd_spec in Ho. destruct Ho as [t Ht].
    symmetry. apply (Z.mod_unique _ _ t); lia.
Qed.

End GenerationExtras.

(** ** Further properties of signing, verification and the digest *)

Lemma loop_ext {A} (body1 body2 : M (option A)) :
  (forall n, body1 n = body2 n) ->
  forall fuel n, loop fuel body1 n = loop fuel body2 n.
Proof.
  intros Hb fuel. induction fuel as [| fuel IH]; intros n; [reflexivity |].
  cbn [loop]. unfold bind. rewrite Hb.
  destruct (body2 n) as [[[a |] | e |] n']; auto.
Qed.

Lemma loop_one_draw_never {A} (body : M (option A)) :
  (forall n, body n = (Ok None, S n)) ->
  forall fuel n, loop fuel body n = (OutOfFuel, (n + fuel)%nat).
Proof.
  intros Hb fuel. induction fuel as [| fuel IH]; intros n.
  - cbn [loop]. now rewrite Nat.add_0_r.
  - cbn [loop]. rewrite (bind_ok _ _ _ _ _ (Hb n)), IH. f_equal. lia.
Qed.


Section SignExtras.

Variable sha256_digest : list byte -> list byte.
Variable entropy : nat -> Z.


(** X11: [sign] on a modulus [q] too small for an ephemeral exponent.  For
    [q <= 3] it fails at once, before any draw: [ZeroDivisionError] for
    [q = 0] (the reduction of the digest) and [ValueError] otherwise (the
    range [2 .. q-2] of [k] is empty).  For [q = 4] the only exponent is
    [k = 2], which is not coprime to 4: the loop draws for ever and never
    returns. *)
Theorem sign_on_small_q :
  forall fuel msg p g x q n,
    (q <= 3 ->
     sign sha256_digest entropy (S fuel) msg p g x q n
     = (Raise (if q =? 0 then ZeroDivisionError else ValueError), n)) /\
    (q = 4 ->
     sign sha256_digest entropy fuel msg p g x q n
     = (OutOfFuel, (n + fuel)%nat)).
Proof.
  intros fuel msg p g x q n. split.
  - intros Hq.
    unfold sign, hash_message. unfold bind at 1. unfold ret at 1.
    unfold bind at 1. unfold lift, py_mod.
    destruct (Z.eqb_spec q 0); [reflexivity |].
    cbn [loop]. unfold sign_body. unfold bind at 1. unfold bind at 1.
    unfold randrange. cbv zeta.
    destruct (Z.ltb_spec 0 (q - 1 - 2)); [lia | reflexivity].
  - intros ->. rewrite sign_unfold by lia.
    apply loop_one_draw_never. intros m. unfold sign_body.
    rewrite (bind_ok _ _ _ _ _ (randrange_ok entropy 2 (4 - 1) m ltac:(lia))).
    change (4 - 1 - 2) with 1. rewrite Z.mod_1_r. reflexivity.
Qed.

Lemma sign_body_key_mod p g x c q h n :
  q <> 0 ->
  sign_body entropy p g (x + c * q) q h n = sign_body entropy p g x q h n.
Proof.
  intros Hq. unfold sign_body, bind, lift.
  destruct (randrange entropy 2 (q - 1) n) as [[k | e |] n1]; try reflexivity.
  destruct (negb (Z.gcd k q =? 1)); [reflexivity |].
  destruct (py_pow g k p) as [r | e |]; try reflexivity.
  destruct (r =? 0); [reflexivity |].
  destruct (py_pow k (-1) q) as [ki | e |]; try reflexivity.
  rewrite !py_mod_ok by exact Hq.
  replace (ki * (h - (x + c * q) * (r mod q)))
    with (ki * (h - x * (r mod q)) + (- (ki * c * (r mod q))) * q) by ring.
  rewrite Z.mod_add by exact Hq. reflexivity.
Qed.

(** X12: only the class of the private exponent modulo [q] matters.  On the
    same draws, [sign] with [x + c*q] does exactly what it does with [x]:
    same signature, same error, same number of draws. *)
Theorem sign_depends_on_key_mod_q :
  forall fuel msg p g x c q n,
    sign sha256_digest entropy fuel msg p g (x + c * q) q n
    = sign sha256_digest entropy fuel msg p g x q n.
Proof.
  intros fuel msg p g x c q n.
  destruct (Z.eq_dec q 0) as [-> | Hq].
  - now replace (x + c * 0) with x by ring.
  - rewrite !sign_unfold by exact Hq.
    apply loop_ext. intros m. now apply sign_body_key_mod.
Qed.

(** X13: the signing equation of the docstring.  For [q > 4] and [p <> 0],
    every returned pair [(r, s)] comes from an exponent [k] of [2 .. q-2]
    coprime to [q], with [r = g^k mod p] and
    [k*s + x*r = H(msg)] modulo [q]. *)
Theorem sign_satisfies_signing_equation :
  forall fuel msg p g x q n,
    4 < q -> p <> 0 ->
    post (sign sha256_digest entropy fuel msg p g x q) n
      (fun sig _ =>
         exists k,
           2 <= k <= q - 2 /\ Z.gcd k q = 1 /\
           fst sig = g ^ k mod p /\
           (k * snd sig + x * fst sig) mod q
           = int_from_bytes_big (sha256_digest msg) mod q).
Proof.
  intros fuel msg p g x q n Hq Hp. unfold post. rewrite sign_unfold by lia.
  revert n. apply post_loop. intros n.
  eapply post_of_eq; [apply sign_body_eq; assumption |]. cbv zeta.
  pose proof (randrange_range entropy 2 (q - 1) n ltac:(lia)) as Hk.
  set (k := 2 + entropy n mod (q - 1 - 2)) in *.
  destruct (Z.eqb_spec (Z.gcd k q) 1) as [Hg | _]; cbn [negb]; [| exact I].
  destruct (Z.eqb_spec (g ^ k mod p) 0) as [_ | Hr]; [exact I |].
  match goal with |- context [negb (?s =? 0)] =>
    destruct (Z.eqb_spec s 0) as [_ | Hs] end; cbn [negb]; [exact I |].
  exists k. cbn [fst snd]. repeat split; auto; try lia.
  rewrite Z.add_comm.
  apply (exponent_congruence q x k _ (g ^ k mod p) _ ltac:(lia) Hg);
    [apply Z.mod_pos_bound; lia | reflexivity].
Qed.

(** X14: [verify] sees the message only through its digest reduced modulo
    [q]: two messages whose digests agree modulo [q] are interchangeable
    under every signature and every key. *)
Theorem verify_depends_on_digest_mod_q :
  forall msg1 msg2 sig p g y q n,
    int_from_bytes_big (sha256_digest msg1) mod q
    = int_from_bytes_big (sha256_digest msg2) mod q ->
    verify sha256_digest msg1 sig p g y q n
    = verify sha256_digest msg2 sig p g y q n.
Proof.
  intros msg1 msg2 [r s] p g y q n Hh.
  destruct (Z_lt_le_dec 0 r) as [Hr0 | Hr0];
    [| rewrite !verify_out_of_range by lia; reflexivity].
  destruct (Z_lt_le_dec r p) as [Hrp | Hrp];
    [| rewrite !verify_out_of_range by lia; reflexivity].
  destruct (Z_lt_le_dec 0 s) as [Hs0 | Hs0];
    [| rewrite !verify_out_of_range by lia; reflexivity].
  destruct (Z_lt_le_dec s q) as [Hsq | Hsq];
    [| rewrite !verify_out_of_range by lia; reflexivity].
  rewrite !verify_in_range by lia. now rewrite Hh.
Qed.

End SignExtras.

(** ** The whole script *)

Section PipelineExtras.

Variable sha256_digest : list byte -> list byte.
Variable entropy : nat -> Z.

(** What follows the generation of [(p, q)] in the script. *)
Lemma pipeline_tail_valid fuel msg p q n :
  Z.prime p -> p = 2 * q + 1 -> 4 < q ->
  post (g <- find_generator entropy fuel p q ;;
        '(x, y) <- generate_keys entropy p g ;;
        sig <- sign sha256_digest entropy fuel msg p g x q ;;
        verify sha256_digest msg sig p g y q) n
    (fun b _ => b = true).
Proof.
  intros Hp Hpq Hq. apply post_bind.
  refine (post_weaken _ _ _ _ _
            (find_generator_post entropy p q fuel n Hp ltac:(lia) ltac:(lia) _)).
  2: { exists 2. lia. }
  intros g n2 [Hg Hgq]. apply post_bind.
  apply (post_of_eq _ _ _ _ _ (generate_keys_ok entropy p g n2 ltac:(lia))).
  pose proof (randrange_range entropy 2 (p - 2) n2 ltac:(lia)) as Hx.
  set (x := 2 + entropy n2 mod (p - 2 - 2)) in *.
  apply post_bind.
  refine (post_weaken _ _ _ _ _
            (sign_post sha256_digest entropy fuel msg p g x q (S n2) Hq ltac:(lia))).
  intros [r s] n4 (k & Hk). cbn [fst snd] in Hk.
  pose proof Hk as (Hk2 & Hgcd & Hr & Hr0 & Hs & Hs0).
  pose proof (Z.mod_pos_bound (g ^ k) p ltac:(lia)).
  pose proof (Z.mod_pos_bound (Z.invmod k q * (int_from_bytes_big
    (sha256_digest msg) mod q - x * (r mod q))) q ltac:(lia)).
  unfold post. rewrite verify_in_range by lia.
  apply Z.eqb_eq.
  apply (verification_equation p q g x _ k r s); auto; try lia.
  apply Z.mod_pos_bound. lia.
Qed.

(** X15: end to end.  For [q_bits >= 3], in every run of the script whose
    generated modulus [p] is really prime, nothing is raised after the
    generation and the verification of the fresh signature, if the run
    reaches it, answers [True]. *)
Theorem pipeline_valid_when_p_prime :
  forall fuel q_bits msg n p q n1,
    3 <= q_bits ->
    generate_p_q entropy fuel q_bits n = (Ok (p, q), n1) ->
    Z.prime p ->
    post (pipeline sha256_digest entropy fuel q_bits msg) n
      (fun b _ => b = true).
Proof.
  intros fuel q_bits msg n p q n1 Hb E Hp.
  pose proof (post_returns _ _ _ _ _
                (generate_p_q_post entropy fuel q_bits n ltac:(lia)) E)
    as (Hpq & Hodd & Hr).
  cbn [fst snd] in *.
  assert (H4 : 2 ^ 2 <= 2 ^ (q_bits - 1)) by (apply Z.pow_le_mono_r; lia).
  change (2 ^ 2) with 4 in H4.
  assert (Hq : 4 < q).
  { destruct (Z.eq_dec q 4) as [-> | ]; [discriminate | lia]. }
  unfold post, pipeline. rewrite (bind_ok _ _ _ _ _ E).
  exact (pipeline_tail_valid fuel msg p q n1 Hp Hpq Hq).
Qed.

(** X16: bit-lengths the script cannot serve.  For [q_bits <= 0] the
    generation raises [ValueError]; for [q_bits = 1] it never returns; for
    [q_bits = 2] it always yields [(7, 3)], a generator and a keypair after
    three draws, and then [sign] raises [ValueError]: no boolean is ever
    printed for [q_bits <= 2]. *)
Theorem pipeline_fails_below_three_bits :
  forall fuel q_bits msg n,
    (q_bits <= 0 ->
     exists n',
       pipeline sha256_digest entropy (S fuel) q_bits msg n
       = (Raise ValueError, n')) /\
    (q_bits = 1 ->
     exists n',
       pipeline sha256_digest entropy fuel q_bits msg n = (OutOfFuel, n')) /\
    (q_bits = 2 ->
     pipeline sha256_digest entropy (S fuel) q_bits msg n
     = (Raise ValueError, S (S (S n)))).
Proof.
  intros fuel q_bits msg n. repeat split.
  - intros Hb.
    destruct (generate_prime_no_bits entropy fuel q_bits n Hb) as [n' E].
    exists n'. unfold pipeline, generate_p_q. cbn [loop].
    unfold bind at 1. unfold bind at 1. unfold bind at 1. now rewrite E.
  - intros ->. destruct fuel as [| fuel].
    + exists n. reflexivity.
    + eexists. unfold pipeline, generate_p_q. cbn [loop].
      unfold bind at 1. unfold bind at 1. unfold bind at 1.
      rewrite generate_prime_one_bit. reflexivity.
  - intros ->. unfold pipeline.
    rewrite (bind_ok _ _ _ _ _ (generate_p_q_two_bits entropy fuel n)).
    assert (H7 : Z.prime 7) by (apply prime_by_trial; [lia | reflexivity]).
    rewrite (bind_ok _ _ _ _ _
               (find_generator_first_draw entropy 7 3 fuel (S n) H7
                  ltac:(lia) ltac:(lia))).
    rewrite (bind_ok _ _ _ _ _ (generate_keys_ok entropy 7 _ (S (S n)) ltac:(lia))).
    unfold bind at 1. now rewrite sign_empty_range.
Qed.

End PipelineExtras.

(** The runs below instantiate the further properties on the sample tape. *)
Lemma find_generator_exact_order_witness :
  exists g n',
    find_generator sample_entropy 20 23 11 0%nat = (Ok g, n') /\
    forall j, 0 < j < 11 -> g ^ j mod 23 <> 1.
Proof.
  exists 18, 1%nat. split; [vm_compute; reflexivity |].
  refine (post_returns _ _ _ _ _
            (find_generator_exact_order sample_entropy
               23 11 20%nat 0%nat _ _ _ _) _).
  - apply prime_by_trial; [lia | vm_compute; reflexivity].
  - lia.
  - apply prime_by_trial; [lia | vm_compute; reflexivity].
  - exists 2. reflexivity.
  - vm_compute; reflexivity.
Defined.

Lemma find_generator_never_retries_on_safe_prime_witness :
  exists h,
    2 <= h <= 23 - 2 /\
    find_generator sample_entropy 1 23 11 0%nat = (Ok (h ^ 2 mod 23), 1%nat).
Proof.
  apply (find_generator_never_retries_on_safe_prime sample_entropy
           23 11 0%nat 0%nat).
  - apply prime_by_trial; [lia | vm_compute; reflexivity].
  - reflexivity.
  - lia.
Defined.

Lemma find_generator_errors_witness :
  find_generator sample_entropy 1 3 1 0%nat = (Raise ValueError, 0%nat) /\
  find_generator sample_entropy 1 23 0 0%nat = (Raise ZeroDivisionError, 1%nat).
Proof.
  split.
  - apply (proj1 (find_generator_errors sample_entropy 3 1 0%nat 0%nat)). lia.
  - apply (proj2 (find_generator_errors sample_entropy 23 0 0%nat 0%nat));
      [lia | reflexivity].
Defined.

Lemma generate_keys_raises_iff_witness :
  generate_keys sample_entropy 4 2 0%nat = (Raise ValueError, 0%nat).
Proof.
  apply (proj1 (generate_keys_raises_iff sample_entropy 4 2 0%nat)). lia.
Defined.

Lemma generate_prime_needs_two_bits_witness :
  generate_prime sample_entropy 25 1 0%nat = (OutOfFuel, 25%nat).
Proof.
  apply (proj2 (generate_prime_needs_two_bits sample_entropy 1 25%nat 0%nat)).
  reflexivity.
Defined.

Lemma generate_p_q_sizes_witness :
  exists pq n',
    generate_p_q sample_entropy 200 8 0%nat = (Ok pq, n') /\
    Z.odd (snd pq) = true /\ bit_length (snd pq) = 8 /\
    bit_length (fst pq) = 8 + 1 /\ fst pq mod 4 = 3.
Proof.
  exists (263, 131), 123%nat. split; [vm_compute; reflexivity |].
  refine (post_returns _ _ _ _ _
            (generate_p_q_sizes sample_entropy 8 200%nat 0%nat _) _).
  - lia.
  - vm_compute; reflexivity.
Defined.

Lemma sign_on_small_q_witness :
  sign sample_digest sample_entropy 1 msg_test 7 2 2 3 0%nat
  = (Raise ValueError, 0%nat) /\
  sign sample_digest sample_entropy 30 msg_test 9 2 2 4 0%nat
  = (OutOfFuel, 30%nat).
Proof.
  split.
  - apply (proj1 (sign_on_small_q sample_digest sample_entropy
                    0%nat msg_test 7 2 2 3 0%nat)). lia.
  - apply (proj2 (sign_on_small_q sample_digest sample_entropy
                    30%nat msg_test 9 2 2 4 0%nat)). reflexivity.
Defined.

Lemma sign_satisfies_signing_equation_witness :
  exists sig n' k,
    sign sample_digest sample_entropy 20 msg_test 23 2 5 11 0%nat = (Ok sig, n') /\
    2 <= k <= 11 - 2 /\ Z.gcd k 11 = 1 /\ fst sig = 2 ^ k mod 23 /\
    (k * snd sig + 5 * fst sig) mod 11
    = int_from_bytes_big (sample_digest msg_test) mod 11.
Proof.
  destruct (post_returns _ _ _ (13, 10) 1%nat
              (sign_satisfies_signing_equation sample_digest sample_entropy
                 20%nat msg_test 23 2 5 11 0%nat ltac:(lia) ltac:(lia))
              ltac:(vm_compute; reflexivity)) as [k Hk].
  exists (13, 10), 1%nat, k. split; [vm_compute; reflexivity | exact Hk].
Defined.

Lemma verify_depends_on_digest_mod_q_witness :
  verify sample_digest [x0c] (13, 10) 23 2 9 11 0%nat
  = verify sample_digest [x01] (13, 10) 23 2 9 11 0%nat.
Proof.
  apply (verify_depends_on_digest_mod_q sample_digest [x0c] [x01]).
  reflexivity.
Defined.

Lemma pipeline_valid_when_p_prime_witness :
  exists b n',
    pipeline sample_digest sample_entropy 200 8 msg_test 0%nat = (Ok b, n') /\
    b = true.
Proof.
  exists true, 126%nat. split; [vm_compute; reflexivity |].
  refine (post_returns _ _ _ _ 126%nat
            (pipeline_valid_when_p_prime sample_digest sample_entropy
               200%nat 8 msg_test 0%nat 263 131 123%nat _ _ _) _).
  - lia.
  - vm_compute; reflexivity.
  - apply prime_by_trial; [lia | vm_compute; reflexivity].
  - vm_compute; reflexivity.
Defined.

Lemma pipeline_fails_below_three_bits_witness :
  pipeline sample_digest sample_entropy 5 2 msg_test 0%nat
  = (Raise ValueError, 3%nat).
Proof.
  apply (proj2 (proj2 (pipeline_fails_below_three_bits
                         sample_digest sample_entropy 4%nat 2 msg_test 0%nat))).
  reflexivity.
Defined.

(** ** Two more invariants *)

(** X17: the loop of [is_prime] that splits [n - 1].  Started with [r = 0]
    on any [d > 0], [while d % 2 == 0: d //= 2; r += 1] ends with [r >= 0]
    and an odd [d'] such that [d = 2^r * d']. *)
Theorem factor_twos_decomposition :
  forall d,
    0 < d ->
    exists r d',
      factor_twos 0 d = Ok (r, d') /\
      0 <= r /\ 0 < d' /\ Z.odd d' = true /\ d = 2 ^ r * d'.
Proof.
  intros d Hd.
  destruct (factor_twos_pos d Hd) as (r & d' & E & Hr & Hd' & Hdec & Hodd).
  exists r, d'. auto.
Qed.

Lemma factor_twos_decomposition_witness :
  exists r d',
    factor_twos 0 96 = Ok (r, d') /\
    0 <= r /\ 0 < d' /\ Z.odd d' = true /\ 96 = 2 ^ r * d'.
Proof.
  apply (factor_twos_decomposition 96). lia.
Defined.

(** X18: the public key stays in the subgroup.  For a prime [p > 4] and a
    [g] of [1 .. p-1] with [g^q mod p = 1], [q >= 0], the [y] returned by
    [generate_keys] is a non-zero residue with [y^q mod p = 1]. *)
Theorem generate_keys_public_key_in_subgroup :
  forall (entropy : nat -> Z) p g q n,
    Z.prime p -> 4 < p -> 0 < g < p -> 0 <= q -> g ^ q mod p = 1 ->
    exists x y,
      generate_keys entropy p g n = (Ok (x, y), S n) /\
      0 < y < p /\ y ^ q mod p = 1.
Proof.
  intros entropy p g q n Hp Hp4 Hg Hq Hgq.
  pose proof (randrange_range entropy 2 (p - 2) n ltac:(lia)) as Hx.
  set (x := 2 + entropy n mod (p - 2 - 2)) in *.
  exists x, (g ^ x mod p). split; [now apply generate_keys_ok |].
  pose proof (Z.mod_pos_bound (g ^ x) p ltac:(lia)) as Hb.
  split.
  - assert (N0 : g ^ x mod p <> 0); [| lia].
    intros E. apply Z.mod_divide in E; [| lia].
    assert (Hc : Z.coprime p (g ^ x)).
    { apply Z.coprime_pow_r; [lia |].
      apply Z.coprime_prime_small; [exact Hp | lia]. }
    unfold Z.coprime in Hc.
    assert (Hd : (p | Z.gcd p (g ^ x)))
      by (apply Z.gcd_greatest; [apply Z.divide_refl | exact E]).
    rewrite Hc in Hd. apply Z.divide_1_r_nonneg in Hd; lia.
  - rewrite Z.mod_pow_l, <- Z.pow_mul_r, Z.mul_comm, Z.pow_mul_r by lia.
    rewrite <- Z.mod_pow_l, Hgq, Z.pow_1_l by lia.
    apply Z.mod_small. lia.
Qed.

Lemma generate_keys_public_key_in_subgroup_witness :
  exists x y,
    generate_keys sample_entropy 23 2 0%nat = (Ok (x, y), 1%nat) /\
    0 < y < 23 /\ y ^ 11 mod 23 = 1.
Proof.
  apply (generate_keys_public_key_in_subgroup sample_entropy 23 2 11 0%nat).
  - apply prime_by_trial; [lia | vm_compute; reflexivity].
  - lia.
  - lia.
  - lia.
  - reflexivity.
Defined.
